(** * Node-side job admission and execution engine of the GoPine node agent

    A shallow embedding of [core/resource_monitor.py], [core/job_manager.py],
    [jobs/base_job.py], [jobs/factory.py], the constructor and the
    parameter validation of [jobs/ocr_job.py] and the flush and
    scheduling-window code of
    [core/agent.py], followed by the properties checked against it; then
    the rest of the agent's loop (registration, heartbeat, job requests),
    the merge of [core/config.py], the shortening of recognised text in
    [jobs/ocr_job.py] and [api/server_api.py] and the page ranges of
    [jobs/pdf_parse_job.py], with their properties.

    Conventions of the embedding:
    - a Python [dict] keyed by job id is a [gmap string _]; the FIFO
      [queue.Queue] is a list whose head is the next job out;
    - a percentage is the rational value ([Q]) of the double that
      [psutil] reports; the code compares them, which is exact, and adds
      and divides them, which rounds each result to the nearest double
      ([ResourceMonitor.to_double]); readings are far from the largest
      double, and overflow to infinity is not modelled;
    - [x.get(k)] is an [option]; Python truthiness of a string or [None] is
      [truthy];
    - code that raises returns an [outcome]; a capability that has not
      returned is [Hangs], and the caller then has no result ([None]);
    - logging and the stubbed notifications ([_notify_job_status],
      [_notify_job_failure] only log) leave no trace in the state;
    - the file system is an input: what [os.makedirs] answers for a path
      below the work directory ([Jobs.filesystem]); the files inside the job
      directories, the queue's [task_done] counter and the progress
      attributes of a job object are outside the ledger and are left out. *)

From Stdlib Require Import ZArith QArith Qminmax Qround Qabs Qpower Lqa.
From Stdlib Require Import String Ascii List Bool.
From stdpp Require Import gmap strings list fin_maps.

Open Scope Z_scope.

(** ** Python values shared by the modules *)

Inductive outcome (A : Type) : Type :=
| Returns (a : A)
| Raises (msg : string).
Arguments Returns {A} a.
Arguments Raises {A} msg.

(** Calls that may raise, one after the other: the first exception ends
    the sequence. *)
#[global] Instance outcome_bind : MBind outcome :=
  fun A B f x =>
    match x with
    | Returns a => f a
    | Raises msg => Raises msg
    end.

(** [not s] is true for [None] and for the empty string. *)
Definition truthy (o : option string) : option string :=
  match o with
  | Some s => if String.eqb s "" then None else Some s
  | None => None
  end.

(** ** core/resource_monitor.py *)

Module ResourceMonitor.

(** [a > b] on readings. *)
Definition Qgtb (a b : Q) : bool := negb (Qle_bool a b).

(** One round of [psutil] readings: [cpu_percent(interval=0.1)],
    [virtual_memory().percent] and [disk_usage("/").free] in bytes. *)
Record reading : Type := Reading {
  r_cpu_percent : Q;
  r_memory_percent : Q;
  r_disk_free : Z
}.

Record t : Type := Monitor {
  max_cpu_percent : Q;
  max_memory_percent : Q;
  min_free_disk_space_mb : Z;
  current_cpu_percent : Q;
  current_memory_percent : Q;
  current_free_disk_space_mb : Z;
  avg_cpu_percent : Q;
  avg_memory_percent : Q;
  cpu_history : list Q;
  memory_history : list Q;
  history_size : nat
}.

(** [__init__]. *)
Definition init (max_cpu max_mem : Q) (min_disk : Z) : t :=
  {| max_cpu_percent := max_cpu;
     max_memory_percent := max_mem;
     min_free_disk_space_mb := min_disk;
     current_cpu_percent := 0;
     current_memory_percent := 0;
     current_free_disk_space_mb := 0;
     avg_cpu_percent := 0;
     avg_memory_percent := 0;
     cpu_history := [];
     memory_history := [];
     history_size := 12 |}.

(** [can_accept_jobs]: three guarded early returns, then [True]. *)
Definition can_accept_jobs (m : t) : bool :=
  if Qgtb (avg_cpu_percent m) (max_cpu_percent m) then false
  else if Qgtb (avg_memory_percent m) (max_memory_percent m) then false
  else if current_free_disk_space_mb m <? min_free_disk_space_mb m then false
  else true.

(** *** Arithmetic on doubles

    [2 ** e] for an integer [e] of either sign. *)
Definition pow2 (e : Z) : Q := (2 ^ e)%Q.

(** The [k] with [2 ** k <= |x| < 2 ** (k + 1)], for [x] other than 0:
    the difference of the bit lengths of numerator and denominator, or one
    less. *)
Definition magnitude (x : Q) : Z :=
  let k := Z.log2 (Z.abs (Qnum x)) - Z.log2 (Z.pos (Qden x)) in
  if Qle_bool (pow2 k) (Qabs x) then k else k - 1.

(** The nearest integer, the even one of two equally near. *)
Definition round_half_even (x : Q) : Z :=
  let f := Qfloor x in
  match (x - inject_Z f ?= 1 # 2)%Q with
  | Lt => f
  | Gt => f + 1
  | Eq => if Z.even f then f else f + 1
  end.

(** The double nearest to [x] (IEEE 754 binary64, round to nearest, ties
    to even): 53 significant bits, the last of them worth [2 ** -1074] at
    least. *)
Definition to_double (x : Q) : Q :=
  if Qeq_bool x 0 then 0%Q
  else
    let e := Z.max (magnitude x - 52) (-1074) in
    (inject_Z (round_half_even (x / pow2 e)) * pow2 e)%Q.

(** [a + b] and [a / b] on floats. *)
Definition float_add (a b : Q) : Q := to_double (a + b).
Definition float_div (a b : Q) : Q := to_double (a / b).

(** [sum(xs)] on floats, as CPython up to 3.11 (the versions the package
    lists) computes it: left to right from [0], each partial sum rounded.
    Later versions compensate the rounding of the partial sums; the total
    is a rounded double there too. *)
Definition pysum (xs : list Q) : Q := fold_left float_add xs 0%Q.

(** [sum(xs) / len(xs)]; the length converts to a double exactly. *)
Definition mean (xs : list Q) : Q :=
  float_div (pysum xs) (inject_Z (Z.of_nat (length xs))).




(** [h.append(x)] followed by [if len(h) > history_size: h.pop(0)]. *)
Definition push_history (size : nat) (h : list Q) (x : Q) : list Q :=
  let h' := h ++ [x] in
  if (size <? length h')%nat then tl h' else h'.

(** [disk.free // (1024 * 1024)]. *)
Definition free_mb (r : reading) : Z := r_disk_free r / (1024 * 1024).

(** The body of one iteration of [_monitor_loop] under the lock. The two
    averages are assigned in order, and [sum(h) / len(h)] raises
    [ZeroDivisionError] on an empty history: the assignments made before it
    stay, the later ones are skipped (the loop logs the error and goes on). *)
Definition sample (m : t) (r : reading) : t :=
  let cpu_h := push_history (history_size m) (cpu_history m) (r_cpu_percent r) in
  let mem_h := push_history (history_size m) (memory_history m) (r_memory_percent r) in
  let avg_cpu :=
    match cpu_h with [] => avg_cpu_percent m | _ => mean cpu_h end in
  let avg_mem :=
    match cpu_h, mem_h with
    | [], _ | _, [] => avg_memory_percent m
    | _, _ => mean mem_h
    end in
  {| max_cpu_percent := max_cpu_percent m;
     max_memory_percent := max_memory_percent m;
     min_free_disk_space_mb := min_free_disk_space_mb m;
     current_cpu_percent := r_cpu_percent r;
     current_memory_percent := r_memory_percent r;
     current_free_disk_space_mb := free_mb r;
     avg_cpu_percent := avg_cpu;
     avg_memory_percent := avg_mem;
     cpu_history := cpu_h;
     memory_history := mem_h;
     history_size := history_size m |}.

(** A run of sampling ticks. *)
Definition run (m : t) (rs : list reading) : t := fold_left sample rs m.

(** The last [n] entries of a list. *)
Definition last_n {A : Type} (n : nat) (l : list A) : list A :=
  skipn (length l - n) l.

(** Readings of 95% and of 50% CPU, both with 50% memory and 2000 MB of
    free disk. *)
Definition hot_reading : reading := Reading 95 50 (2000 * 1024 * 1024).
Definition cool_reading : reading := Reading 50 50 (2000 * 1024 * 1024).


End ResourceMonitor.

(** ** jobs/base_job.py, jobs/ocr_job.py, jobs/factory.py *)

Module Jobs.

(** The assignment received from the server, by the keys the agent reads:
    each key is absent ([None]) or bound to a value; the job id and type
    are strings (as [add_job]'s callers and [os.path.join] need), the
    priority and the timeout integers, and ["parameters"] is a dictionary
    whose values are strings. *)
Record job_data : Type := JobData {
  jd_job_id : option string;
  jd_job_type : option string;
  jd_priority : option Z;
  jd_timeout_seconds : option Z;
  jd_parameters : gmap string string
}.

(** What the capability's [_process_job] does once called: it returns a
    payload or raises after [elapsed] seconds, or it never returns. *)
Inductive behaviour : Type :=
| Finishes (elapsed : nat) (payload : gmap string string)
| Fails (elapsed : nat) (msg : string)
| Hangs.

(** What [os.makedirs(path, exist_ok=True)] answers for a path below the
    agent's work directory, the path given by the components that
    [os.path.join] puts after it. *)
Definition filesystem : Type := list string -> outcome unit.

(** A file system in which every directory can be created. *)
Definition creatable : filesystem := fun _ => Returns tt.

(** A subclass of [BaseJob]: its [__init__], called with the job id and
    the assignment, which returns or raises (the attributes it leaves on
    the instance are those of [new_job] below), and the two methods the
    subclasses provide. *)
Record JobClass : Type := {
  init_job : filesystem -> string -> job_data -> outcome unit;
  validate_parameters : job_data -> outcome unit;
  process_job : job_data -> behaviour
}.

(** An instance built by [BaseJob.__init__]. *)
Record Job : Type := MkJob {
  job_id : string;
  job_data_of : job_data;
  job_class : JobClass;
  job_type : option string;
  priority : Z;
  timeout_seconds : Z;
  parameters : gmap string string
}.

(** [BaseJob.__init__], as far as it can raise: the job's directory, then
    its [input] and [output] sub-directories are created. *)
Definition base_init (makedirs : filesystem) (jid : string) : outcome unit :=
  makedirs [jid];; makedirs [jid; "input"];; makedirs [jid; "output"].

Definition new_job (cls : JobClass) (jid : string) (jd : job_data) : Job :=
  {| job_id := jid;
     job_data_of := jd;
     job_class := cls;
     job_type := jd_job_type jd;
     priority := default 5 (jd_priority jd);
     timeout_seconds := default 3600 (jd_timeout_seconds jd);
     parameters := jd_parameters jd |}.

Record processing_stats : Type := Stats {
  processing_time_seconds : nat;
  start_time : nat;
  end_time : nat
}.

(** The ["error"] entry of a failed result; the ["error_time"] of its
    details, one more reading of the clock, is left out. *)
Record error_info : Type := ErrorInfo {
  message : string;
  details_job_id : string;
  details_job_type : option string;
  details_parameters : gmap string string
}.

Record JobResult : Type := Result {
  status : string;
  result : option (gmap string string);
  error : option error_info;
  stats : processing_stats
}.

Definition completed_result (now elapsed : nat) (payload : gmap string string)
  : JobResult :=
  {| status := "completed";
     result := Some payload;
     error := None;
     stats := Stats elapsed now (now + elapsed) |}.

Definition failed_result (job : Job) (now elapsed : nat) (msg : string)
  : JobResult :=
  {| status := "failed";
     result := None;
     error := Some {| message := msg;
                      details_job_id := job_id job;
                      details_job_type := job_type job;
                      details_parameters := parameters job |};
     stats := Stats elapsed now (now + elapsed) |}.

(** [BaseJob.execute], started at clock reading [now]. Validation, input
    preparation (which only logs) and processing run in one [try]; every
    exception becomes a failed result. No call is bounded in time: while
    [_process_job] has not returned there is no result. *)
Definition execute (now : nat) (job : Job) : option JobResult :=
  match validate_parameters (job_class job) (job_data_of job) with
  | Raises msg => Some (failed_result job now 0 msg)
  | Returns _ =>
      match process_job (job_class job) (job_data_of job) with
      | Finishes elapsed payload => Some (completed_result now elapsed payload)
      | Fails elapsed msg => Some (failed_result job now elapsed msg)
      | Hangs => None
      end
  end.

(** The same job with another value in its [timeout_seconds] attribute. *)
Definition set_timeout (t : Z) (job : Job) : Job :=
  {| job_id := job_id job;
     job_data_of := job_data_of job;
     job_class := job_class job;
     job_type := job_type job;
     priority := priority job;
     timeout_seconds := t;
     parameters := parameters job |}.

(** The capability is still running when [timeout_seconds] have elapsed. *)
Definition overruns (job : Job) : Prop :=
  match process_job (job_class job) (job_data_of job) with
  | Finishes elapsed _ | Fails elapsed _ => timeout_seconds job < Z.of_nat elapsed
  | Hangs => True
  end.

(** The job passes validation and its capability then never returns. *)
Definition never_returns (job : Job) : Prop :=
  (exists u, validate_parameters (job_class job) (job_data_of job) = Returns u)
  /\ process_job (job_class job) (job_data_of job) = Hangs.

(** The assignment does not pass validation: its type is missing or not
    registered, or the class's own parameter check raises. *)
Definition fails_validation (job_classes : gmap string JobClass)
    (jd : job_data) : Prop :=
  match truthy (jd_job_type jd) with
  | None => True
  | Some ty =>
      match job_classes !! ty with
      | None => True
      | Some cls => exists msg, validate_parameters cls jd = Raises msg
      end
  end.

(** [d.get(k, {})] followed by [.get] on what it returned: the default
    dictionary when the key is absent, [AttributeError] when it is bound
    to a string. *)
Definition get_from_option (entry : option string) : outcome unit :=
  match entry with
  | None => Returns tt
  | Some _ => Raises "'str' object has no attribute 'get'"
  end.

(** [OCRJob.__init__]: [BaseJob.__init__], the [pages] directory, then the
    reads of the parameters; those with a scalar default cannot raise, the
    two option groups are read with [.get]. *)
Definition ocr_init (makedirs : filesystem) (jid : string) (jd : job_data)
  : outcome unit :=
  base_init makedirs jid;;
  makedirs [jid; "pages"];;
  get_from_option (jd_parameters jd !! "preprocessing");;
  get_from_option (jd_parameters jd !! "advanced_options").

(** [OCRJob._validate_parameters]; the language check only logs. *)
Definition ocr_valid_formats : list string :=
  ["txt"; "json"; "docx"; "pdf"; "csv"].

Definition ocr_validate_parameters (jd : job_data) : outcome unit :=
  match truthy (jd_parameters jd !! "input_file") with
  | None => Raises "Input file is required for OCR job"
  | Some _ =>
      let output_format := default "txt" (jd_parameters jd !! "output_format") in
      if existsb (String.eqb output_format) ocr_valid_formats
      then Returns tt
      else Raises ("Invalid output format: " +:+ output_format)
  end.

(** [OCRJob] over an OCR engine taken as given. *)
Definition OCRJob (engine : job_data -> behaviour) : JobClass :=
  {| init_job := ocr_init;
     validate_parameters := ocr_validate_parameters;
     process_job := engine |}.

(** [JobFactory.create_job] over the registry [job_classes]: the class
    registered for the type is called, and what its [__init__] raises
    comes out of the call. *)
Definition create_job (makedirs : filesystem)
    (job_classes : gmap string JobClass)
    (ty : string) (jid : string) (jd : job_data) : outcome Job :=
  match job_classes !! ty with
  | None => Raises ("Unknown job type: " +:+ ty)
  | Some cls => init_job cls makedirs jid jd;; Returns (new_job cls jid jd)
  end.

End Jobs.

(** ** core/job_manager.py *)

Module JobManager.
Import Jobs.

Record t : Type := Manager {
  concurrent_jobs : Z;
  job_queue : list job_data;
  active_jobs : gmap string Job;
  completed_jobs : gmap string JobResult;
  (** jobs handed to the thread pool whose [_execute_job] has not finished *)
  executor : list Job;
  (** the registry of [self.job_factory] *)
  job_classes : gmap string JobClass
}.

Definition set_queue (q : list job_data) (m : t) : t :=
  {| concurrent_jobs := concurrent_jobs m; job_queue := q;
     active_jobs := active_jobs m; completed_jobs := completed_jobs m;
     executor := executor m; job_classes := job_classes m |}.

Definition set_active (a : gmap string Job) (m : t) : t :=
  {| concurrent_jobs := concurrent_jobs m; job_queue := job_queue m;
     active_jobs := a; completed_jobs := completed_jobs m;
     executor := executor m; job_classes := job_classes m |}.

Definition set_completed (c : gmap string JobResult) (m : t) : t :=
  {| concurrent_jobs := concurrent_jobs m; job_queue := job_queue m;
     active_jobs := active_jobs m; completed_jobs := c;
     executor := executor m; job_classes := job_classes m |}.

Definition set_executor (e : list Job) (m : t) : t :=
  {| concurrent_jobs := concurrent_jobs m; job_queue := job_queue m;
     active_jobs := active_jobs m; completed_jobs := completed_jobs m;
     executor := e; job_classes := job_classes m |}.

(** [__init__]: [ThreadPoolExecutor(max_workers=n)] raises [ValueError]
    unless [n] is positive. [classes] is the registry the factory starts
    with. *)
Definition init (classes : gmap string JobClass) (n : Z) : outcome t :=
  if n <=? 0 then Raises "max_workers must be greater than 0"
  else Returns {| concurrent_jobs := n; job_queue := [];
                  active_jobs := ∅; completed_jobs := ∅;
                  executor := []; job_classes := classes |}.

(** [k in d]. *)
Definition contains {V : Type} (d : gmap string V) (k : string) : bool :=
  bool_decide (is_Some (d !! k)).

(** [add_job]: the returned flag and the state after the call. *)
Definition add_job (jd : job_data) (m : t) : bool * t :=
  match truthy (jd_job_id jd) with
  | None => (false, m)
  | Some jid =>
      if contains (active_jobs m) jid || contains (completed_jobs m) jid
      then (false, m)
      else (true, set_queue (job_queue m ++ [jd]) m)
  end.

Definition active_job_count (m : t) : Z := Z.of_nat (size (active_jobs m)).

Definition has_capacity (m : t) : bool :=
  active_job_count m <? concurrent_jobs m.

Definition get_available_capacity (m : t) : Z :=
  Z.max 0 (concurrent_jobs m - active_job_count m).

(** [get_completed_jobs]: the copy handed out and the manager after the
    call. *)
Definition get_completed_jobs (m : t) : gmap string JobResult * t :=
  (completed_jobs m, m).

Definition remove_completed_job (jid : string) (m : t) : t :=
  if contains (completed_jobs m) jid
  then set_completed (delete jid (completed_jobs m)) m
  else m.

(** What [_worker_loop] makes of a dequeued assignment before it touches
    the shared maps: skipped for want of an id; [os.makedirs(job_dir)]
    raised, which only the handler around the loop body catches and logs;
    an exception in the inner [try], passed to the logging stub
    [_notify_job_failure]; or a job object. *)
Inductive prepared : Type :=
| Skipped
| Crashed (msg : string)
| Failed (jid : string) (msg : string)
| Ready (job : Job).

Definition prepare_with (makedirs : filesystem)
    (classes : gmap string JobClass) (jd : job_data) : prepared :=
  match truthy (jd_job_id jd) with
  | None => Skipped
  | Some jid =>
      match makedirs [jid] with
      | Raises msg => Crashed msg
      | Returns _ =>
          match truthy (jd_job_type jd) with
          | None => Failed jid "Job data missing job_type"
          | Some ty =>
              match create_job makedirs classes ty jid jd with
              | Raises msg => Failed jid msg
              | Returns job => Ready job
              end
          end
      end
  end.

(** The same where every directory can be created. *)
Definition prepare (classes : gmap string JobClass) (jd : job_data) : prepared :=
  prepare_with creatable classes jd.

(** [self.active_jobs[job_id] = job] under the lock, then
    [self.executor.submit(self._execute_job, job)], taken as one step; a
    [submit] that raises, the pool being shut down, is outside the model. *)
Definition track (job : Job) (m : t) : t :=
  set_executor (executor m ++ [job])
               (set_active (<[job_id job := job]> (active_jobs m)) m).

(** The ledger update of [_execute_job] once [job.execute()] has returned
    [res]: the result is stored and the job leaves the active set, both
    under one hold of the lock. *)
Definition store_result (jid : string) (res : JobResult) (m : t) : t :=
  set_active (delete jid (active_jobs m))
             (set_completed (<[jid := res]> (completed_jobs m)) m).

(** [_execute_job] for the [i]-th task of the pool, started at [now];
    [None] when there is no such task or its capability never returns. *)
Definition execute_job (i now : nat) (m : t) : option t :=
  match executor m !! i with
  | None => None
  | Some job =>
      match execute now job with
      | None => None
      | Some res =>
          Some (set_executor (delete i (executor m))
                             (store_result (job_id job) res m))
      end
  end.

(** One whole iteration of [_worker_loop] with nothing running in
    between, in the file system [makedirs]. *)
Definition worker_pass (makedirs : filesystem) (m : t) : t :=
  if has_capacity m then
    match job_queue m with
    | [] => m
    | jd :: q =>
        match prepare_with makedirs (job_classes m) jd with
        | Ready job => track job (set_queue q m)
        | _ => set_queue q m
        end
    end
  else m.

(** The same where every directory can be created. *)
Definition worker_iteration (m : t) : t := worker_pass creatable m.


(** *** The threads interleaved

    The worker thread gives up the processor between its capacity check,
    its dequeue and its insertion into the active set; the agent's calls
    and the pool's completions run in between. *)

Inductive worker_pc : Type :=
| AtLoopHead
| CapacityChecked
| Holding (job : Job).

Record system : Type := System {
  mgr : t;
  pc : worker_pc
}.

(** The events of the system: a call of [add_job]; the worker's capacity
    check, its dequeue (with what the file system answers while the job
    object is built) and its insertion; the end of the [i]-th task of the
    pool, started at [now]; a call of [remove_completed_job]. *)
Inductive event : Type :=
| EvAddJob (jd : job_data)
| EvCheck
| EvDequeue (makedirs : filesystem)
| EvTrack
| EvFinish (i now : nat)
| EvAck (jid : string).

(** The dequeue where every directory can be created. *)
Abbreviation EvGet := (EvDequeue creatable).

Definition step (s : system) (e : event) : system :=
  match e, pc s with
  | EvAddJob jd, _ => System (snd (add_job jd (mgr s))) (pc s)
  | EvCheck, AtLoopHead =>
      if has_capacity (mgr s) then System (mgr s) CapacityChecked else s
  | EvDequeue makedirs, CapacityChecked =>
      match job_queue (mgr s) with
      | [] => System (mgr s) AtLoopHead
      | jd :: q =>
          match prepare_with makedirs (job_classes (mgr s)) jd with
          | Ready job => System (set_queue q (mgr s)) (Holding job)
          | _ => System (set_queue q (mgr s)) AtLoopHead
          end
      end
  | EvTrack, Holding job => System (track job (mgr s)) AtLoopHead
  | EvFinish i now, _ =>
      match execute_job i now (mgr s) with
      | Some m' => System m' (pc s)
      | None => s
      end
  | EvAck jid, _ => System (remove_completed_job jid (mgr s)) (pc s)
  | _, _ => s
  end.

Definition run (s : system) (es : list event) : system := fold_left step es s.

(** Between its capacity check and its insertion the worker relies on a
    free slot; the other threads can only free more. *)
Definition within_limit (s : system) : Prop :=
  active_job_count (mgr s) <= concurrent_jobs (mgr s)
  /\ (pc s <> AtLoopHead -> active_job_count (mgr s) < concurrent_jobs (mgr s)).

(** The entries of the pending queue that carry a given job id. *)
Definition queued_entries (jid : string) (m : t) : list job_data :=
  List.filter (fun jd => bool_decide (jd_job_id jd = Some jid)) (job_queue m).

(** In how many of the queue, the active set and the completed set a job id
    is found. *)
Definition places (jid : string) (m : t) : nat :=
  (if bool_decide (queued_entries jid m = []) then 0 else 1)
  + (if contains (active_jobs m) jid then 1 else 0)
  + (if contains (completed_jobs m) jid then 1 else 0).

End JobManager.

(** ** core/agent.py *)

Module NodeAgent.
Import Jobs.

(** What [api.send_job_result] comes back with: [True], [False] or an
    exception. *)
Definition reporter : Type := string -> JobResult -> outcome bool.

Definition acknowledged (send : reporter) (jid : string) (res : JobResult) : bool :=
  match send jid res with
  | Returns true => true
  | _ => false
  end.

(** The body of the loop of [process_job_results] for one entry of the
    copy. *)
Definition report_one (send : reporter) (m : JobManager.t)
    (entry : string * JobResult) : JobManager.t :=
  if acknowledged send entry.1 entry.2
  then JobManager.remove_completed_job entry.1 m
  else m.

(** [process_job_results] with no other thread running meanwhile: a copy
    of the completed set is taken, then each of its entries is reported. *)
Definition process_job_results (send : reporter) (m : JobManager.t)
  : JobManager.t :=
  let '(copy, m1) := JobManager.get_completed_jobs m in
  foldl (report_one send) m1 (map_to_list copy).

(** [process_job_results] with the other threads running while it awaits
    the server: the copy is taken in the state [s], and the events
    [between jid] take place before the report of the entry of [jid] comes
    back and the loop body goes on. *)
Definition interleaved_flush (send : reporter)
    (between : string -> list JobManager.event) (s : JobManager.system)
  : JobManager.system :=
  let '(copy, m1) := JobManager.get_completed_jobs (JobManager.mgr s) in
  foldl (fun acc entry =>
           let acc' := JobManager.run acc (between entry.1) in
           JobManager.System (report_one send (JobManager.mgr acc') entry)
                             (JobManager.pc acc'))
        (JobManager.System m1 (JobManager.pc s)) (map_to_list copy).

(** Whether reporting [entry] takes the id [k] out of the completed set. *)
Definition hit (send : reporter) (k : string) (entry : string * JobResult) : bool :=
  String.eqb entry.1 k && acknowledged send entry.1 entry.2.

(** The [scheduling] section of the configuration. *)
Record scheduling : Type := Scheduling {
  working_hours_only : bool;
  working_hours_start : option string;
  working_hours_end : option string;
  working_days : list string
}.

(** [datetime.now()], by the fields the check formats. *)
Record datetime : Type := DateTime {
  weekday : nat;   (* 0 is Monday *)
  hour : nat;
  minute : nat
}.

(** [strftime("%A")]. *)
Definition day_name (now : datetime) : string :=
  match weekday now with
  | 0%nat => "Monday"
  | 1%nat => "Tuesday"
  | 2%nat => "Wednesday"
  | 3%nat => "Thursday"
  | 4%nat => "Friday"
  | 5%nat => "Saturday"
  | _ => "Sunday"
  end.

Definition digit (n : nat) : ascii := ascii_of_nat (48 + n mod 10).

Definition two_digits (n : nat) : string :=
  String (digit (n / 10)) (String (digit n) EmptyString).

(** [strftime("%H:%M")]. *)
Definition hh_mm (now : datetime) : string :=
  two_digits (hour now) +:+ ":" +:+ two_digits (minute now).

(** [_can_process_jobs_now]; strings compare as Python compares them,
    character by character. *)
Definition can_process_jobs_now (cfg : scheduling) (now : datetime) : bool :=
  if negb (working_hours_only cfg) then true
  else
    let current_time := hh_mm now in
    if negb (bool_decide (day_name now ∈ working_days cfg)) then false
    else
      let start_time := default "18:00" (working_hours_start cfg) in
      let end_time := default "08:00" (working_hours_end cfg) in
      if String.ltb end_time start_time
      then String.leb start_time current_time || String.leb current_time end_time
      else String.leb start_time current_time && String.leb current_time end_time.

(** The window as the specification words it, on the formatted time. *)
Definition str_le (a b : string) : Prop := String.compare a b <> Gt.
Definition str_lt (a b : string) : Prop := String.compare a b = Lt.

Definition in_window (start_time end_time current_time : string) : Prop :=
  (str_lt end_time start_time ->
   str_le start_time current_time \/ str_le current_time end_time)
  /\ (~ str_lt end_time start_time ->
      str_le start_time current_time /\ str_le current_time end_time).

(** A time of day the clock can show, and its minutes since midnight. *)
Definition valid_time (t : datetime) : Prop :=
  (hour t < 24)%nat /\ (minute t < 60)%nat.

Definition minutes_of_day (t : datetime) : nat := (hour t * 60 + minute t)%nat.

(** Two-digit strings compare as the numbers they print, checked over all
    pairs below 100. *)
Definition two_digits_table : bool :=
  forallb (fun a => forallb (fun b =>
     match String.compare (two_digits a) (two_digits b), Nat.compare a b with
     | Eq, Eq | Lt, Lt | Gt, Gt => true
     | _, _ => false
     end) (seq 0 100)) (seq 0 100).

(** Weekends, with the hours left to their defaults. *)
Definition weekend_default_hours : scheduling :=
  {| working_hours_only := true;
     working_hours_start := None;
     working_hours_end := None;
     working_days := ["Saturday"; "Sunday"] |}.

(** The window of the specification's example, Monday evening to morning. *)
Definition monday_nights : scheduling :=
  {| working_hours_only := true;
     working_hours_start := Some "18:00";
     working_hours_end := Some "08:00";
     working_days := ["Monday"] |}.

End NodeAgent.

(** ** Sample assignments and capabilities *)

Module Samples.
Import Jobs.

(** Mock capabilities: one that returns at once, one that takes five
    seconds, one that never returns. *)
Definition quick_engine : job_data -> behaviour :=
  fun _ => Finishes 0 {[ "text" := "ok" ]}.
Definition slow_engine : job_data -> behaviour :=
  fun _ => Finishes 5 {[ "text" := "ok" ]}.
Definition stuck_engine : job_data -> behaviour :=
  fun _ => Hangs.

Definition registry (engine : job_data -> behaviour) : gmap string JobClass :=
  {[ "ocr" := OCRJob engine ]}.

(** A well-formed OCR assignment with a one-second timeout. *)
Definition ocr_assignment (jid : string) : job_data :=
  {| jd_job_id := Some jid;
     jd_job_type := Some "ocr";
     jd_priority := None;
     jd_timeout_seconds := Some 1;
     jd_parameters := {[ "input_file" := "x.png" ]} |}.

(** An OCR assignment without its input file. *)
Definition ocr_without_input (jid : string) : job_data :=
  {| jd_job_id := Some jid;
     jd_job_type := Some "ocr";
     jd_priority := None;
     jd_timeout_seconds := None;
     jd_parameters := ∅ |}.

(** An OCR assignment whose preprocessing options are a string, not a
    dictionary. *)
Definition ocr_with_flat_options (jid : string) : job_data :=
  {| jd_job_id := Some jid;
     jd_job_type := Some "ocr";
     jd_priority := None;
     jd_timeout_seconds := None;
     jd_parameters := {[ "input_file" := "x.png"; "preprocessing" := "none" ]} |}.

(** An assignment of a type no class is registered for. *)
Definition unknown_assignment (jid : string) : job_data :=
  {| jd_job_id := Some jid;
     jd_job_type := Some "thumbnail";
     jd_priority := None;
     jd_timeout_seconds := None;
     jd_parameters := ∅ |}.

(** An assignment without a job id. *)
Definition anonymous_assignment : job_data :=
  {| jd_job_id := None;
     jd_job_type := Some "ocr";
     jd_priority := None;
     jd_timeout_seconds := None;
     jd_parameters := {[ "input_file" := "x.png" ]} |}.

(** A manager with two slots, as the default configuration makes it. *)
Definition fresh (engine : job_data -> behaviour) : JobManager.t :=
  {| JobManager.concurrent_jobs := 2;
     JobManager.job_queue := [];
     JobManager.active_jobs := ∅;
     JobManager.completed_jobs := ∅;
     JobManager.executor := [];
     JobManager.job_classes := registry engine |}.

(** The manager holding the given assignments in its queue. *)
Definition queued (engine : job_data -> behaviour) (jds : list job_data)
  : JobManager.t :=
  JobManager.set_queue jds (fresh engine).

(** A file system in which no directory can be created. *)
Definition read_only : filesystem :=
  fun _ => Raises "[Errno 30] Read-only file system".

(** A file system in which the job directories can be created and nothing
    inside them. *)
Definition shallow : filesystem :=
  fun path =>
    match path with
    | [_] => Returns tt
    | _ => Raises "[Errno 13] Permission denied"
    end.

(** A server that acknowledges the results of the runs started at the
    clock reading [t] and answers [False] to the others. *)
Definition acknowledges_started_at (t : nat) : NodeAgent.reporter :=
  fun _ res => Returns (start_time (stats res) =? t)%nat.

(** The manager after ["job-1"] was admitted and dispatched. *)
Definition dispatched (engine : job_data -> behaviour) : JobManager.t :=
  JobManager.worker_iteration
    (JobManager.add_job (ocr_assignment "job-1") (fresh engine)).2.

End Samples.

(** ** Derived notions of the job ledger *)

Module Dispatch.
Import Jobs JobManager.

(** Whether [add_job] takes the assignment in the state [m]. *)
Definition accepted_by (m : JobManager.t) (jd : job_data) : bool :=
  match truthy (jd_job_id jd) with
  | None => false
  | Some jid =>
      negb (contains (active_jobs m) jid || contains (completed_jobs m) jid)
  end.

(** [add_job] called on each assignment of a batch in turn, as the loop of
    [NodeAgent.request_jobs] does. *)
Definition admit_all (jds : list job_data) (m : JobManager.t) : JobManager.t :=
  foldl (fun acc jd => (add_job jd acc).2) m jds.



(** Every queued assignment carries a non-empty job id. *)
Definition queue_has_ids (m : JobManager.t) : Prop :=
  Forall (fun jd => exists jid, jd_job_id jd = Some jid /\ jid <> "")
         (job_queue m).

(** Every entry of the active set is filed under its own id and has a task
    in the pool. *)
Definition active_backed (m : JobManager.t) : Prop :=
  forall k job,
    active_jobs m !! k = Some job ->
    job_id job = k /\ exists i job', executor m !! i = Some job' /\ job_id job' = k.

(** The server assigned the id in one of the events. *)
Definition assigned (es : list event) (jid : string) : Prop :=
  exists jd, EvAddJob jd ∈ es /\ jd_job_id jd = Some jid.

(** The id is somewhere in the system: waiting in the queue, in the
    worker's hands, in the active set, in the pool or in the completed
    set. *)
Definition in_system (s : system) (jid : string) : Prop :=
  (exists jd, jd ∈ job_queue (mgr s) /\ jd_job_id jd = Some jid)
  \/ (exists job, pc s = Holding job /\ job_id job = jid)
  \/ is_Some (active_jobs (mgr s) !! jid)
  \/ (exists job, job ∈ executor (mgr s) /\ job_id job = jid)
  \/ is_Some (completed_jobs (mgr s) !! jid).

(** What the agent's side may do to the ledger: append to the queue and
    take entries out of the completed set. *)
Definition agent_side_only (m m' : JobManager.t) : Prop :=
  active_jobs m' = active_jobs m
  /\ executor m' = executor m
  /\ concurrent_jobs m' = concurrent_jobs m
  /\ completed_jobs m' ⊆ completed_jobs m
  /\ job_queue m `prefix_of` job_queue m'.

End Dispatch.

(** ** core/agent.py: registration, heartbeat, job requests, main loop *)

Module AgentLoop.
Import Jobs NodeAgent.

(** An entry of the list [_get_available_hours] sends at registration. *)
Record time_window : Type := TimeWindow {
  day_of_week : string;
  window_start : string;
  window_end : string
}.

(** [_get_available_hours]. *)
Definition get_available_hours (cfg : scheduling) : list time_window :=
  if negb (working_hours_only cfg)
  then [TimeWindow "All" "00:00" "23:59"]
  else
    let start_time := default "18:00" (working_hours_start cfg) in
    let end_time := default "08:00" (working_hours_end cfg) in
    map (fun day => TimeWindow day start_time end_time) (working_days cfg).

(** An advertised entry applies to the moment [now]. *)
Definition covers (w : time_window) (now : datetime) : Prop :=
  (day_of_week w = "All" \/ day_of_week w = day_name now)
  /\ in_window (window_start w) (window_end w) (hh_mm now).

(** The agent's own attributes and the two components it drives. *)
Record agent : Type := Agent {
  sched : scheduling;
  heartbeat_interval_seconds : Z;
  resource_monitor : ResourceMonitor.t;
  job_manager : JobManager.t;
  is_registered : bool;
  last_heartbeat_time : Q
}.

Definition set_job_manager (m : JobManager.t) (ag : agent) : agent :=
  {| sched := sched ag;
     heartbeat_interval_seconds := heartbeat_interval_seconds ag;
     resource_monitor := resource_monitor ag;
     job_manager := m;
     is_registered := is_registered ag;
     last_heartbeat_time := last_heartbeat_time ag |}.

Definition set_registered (ag : agent) : agent :=
  {| sched := sched ag;
     heartbeat_interval_seconds := heartbeat_interval_seconds ag;
     resource_monitor := resource_monitor ag;
     job_manager := job_manager ag;
     is_registered := true;
     last_heartbeat_time := last_heartbeat_time ag |}.

Definition set_last_heartbeat_time (t : Q) (ag : agent) : agent :=
  {| sched := sched ag;
     heartbeat_interval_seconds := heartbeat_interval_seconds ag;
     resource_monitor := resource_monitor ag;
     job_manager := job_manager ag;
     is_registered := is_registered ag;
     last_heartbeat_time := t |}.

(** What the outside world answers during one pass of the main loop: the
    clocks read, and the replies of the server API ([True], [False] or an
    exception; the list of assignments for the capacity asked). *)
Record world : Type := World {
  wall_clock : datetime;          (* [datetime.now()] *)
  time_at_check : Q;              (* [time.time()] in [main_loop] *)
  time_after_heartbeat : Q;       (* [time.time()] in [send_heartbeat] *)
  register_reply : outcome bool;
  heartbeat_reply : outcome bool;
  jobs_reply : Z -> outcome (list job_data);
  result_reply : reporter
}.

(** [register_with_server]: the flag returned and the agent afterwards. *)
Definition register_with_server (reply : outcome bool) (ag : agent)
  : bool * agent :=
  match reply with
  | Returns true => (true, set_registered ag)
  | _ => (false, ag)
  end.

(** The payload of the heartbeat message, without the amount of available
    memory, which [get_current_load] reads from the system at the call. *)
Record heartbeat : Type := Heartbeat {
  hb_status : string;
  hb_cpu_percent : Q;
  hb_memory_percent : Q;
  hb_active_jobs : Z
}.

Definition heartbeat_data (ag : agent) : heartbeat :=
  let active_jobs := JobManager.active_job_count (job_manager ag) in
  {| hb_status := if 0 <? active_jobs then "busy" else "idle";
     hb_cpu_percent := ResourceMonitor.current_cpu_percent (resource_monitor ag);
     hb_memory_percent :=
       ResourceMonitor.current_memory_percent (resource_monitor ag);
     hb_active_jobs := active_jobs |}.

(** [send_heartbeat]: the flag returned and the agent afterwards. The time
    of the last heartbeat is set once the API call has returned, whatever it
    returned; an exception skips the assignment. *)
Definition send_heartbeat (reply : outcome bool) (t : Q) (ag : agent)
  : bool * agent :=
  match reply with
  | Returns success => (success, set_last_heartbeat_time t ag)
  | Raises _ => (false, ag)
  end.

(** [request_jobs], one call with no other thread running in between: the
    capacity the server was asked for, if it was asked, and the agent
    afterwards. *)
Definition request_jobs (w : world) (ag : agent) : option Z * agent :=
  if negb (JobManager.has_capacity (job_manager ag)) then (None, ag)
  else if negb (ResourceMonitor.can_accept_jobs (resource_monitor ag))
  then (None, ag)
  else if negb (can_process_jobs_now (sched ag) (wall_clock w)) then (None, ag)
  else
    let capacity := JobManager.get_available_capacity (job_manager ag) in
    match jobs_reply w capacity with
    | Raises _ => (Some capacity, ag)
    | Returns jobs =>
        (Some capacity,
         set_job_manager (Dispatch.admit_all jobs (job_manager ag)) ag)
    end.

(** What one pass of the loop body of [main_loop] did: the heartbeat that
    was due, the capacity the server was asked for, the sleep that ends the
    pass and the agent afterwards. *)
Record pass : Type := Pass {
  heartbeat_attempt : option heartbeat;
  capacity_requested : option Z;
  sleep_seconds : Z;
  agent_after : agent
}.

(** The body of the [while] loop of [main_loop]. *)
Definition main_pass (w : world) (ag : agent) : pass :=
  let '(registered, ag1) :=
    if is_registered ag then (true, ag)
    else register_with_server (register_reply w) ag in
  if negb registered then
    {| heartbeat_attempt := None; capacity_requested := None;
       sleep_seconds := 30; agent_after := ag1 |}
  else
    let due :=
      Qle_bool (inject_Z (heartbeat_interval_seconds ag1))
               (time_at_check w - last_heartbeat_time ag1) in
    let '(sent, ag2) :=
      if due
      then (Some (heartbeat_data ag1),
            (send_heartbeat (heartbeat_reply w) (time_after_heartbeat w) ag1).2)
      else (None, ag1) in
    let '(asked, ag3) := request_jobs w ag2 in
    let ag4 :=
      set_job_manager (process_job_results (result_reply w) (job_manager ag3))
                      ag3 in
    {| heartbeat_attempt := sent; capacity_requested := asked;
       sleep_seconds := 1; agent_after := ag4 |}.

(** The loop run over a sequence of worlds, one per pass. *)
Definition main_loop (ws : list world) (ag : agent) : agent :=
  foldl (fun acc w => agent_after (main_pass w acc)) ag ws.

(** The agent [__init__] builds, over a manager and the configured
    values. *)
Definition new_agent (cfg : scheduling) (interval : Z)
    (max_cpu max_mem : Q) (min_disk : Z) (m : JobManager.t) : agent :=
  {| sched := cfg;
     heartbeat_interval_seconds := interval;
     resource_monitor := ResourceMonitor.init max_cpu max_mem min_disk;
     job_manager := m;
     is_registered := false;
     last_heartbeat_time := 0 |}.

(** A world in which the server is unreachable. *)
Definition offline (t : Q) : world :=
  {| wall_clock := DateTime 0 12 0;
     time_at_check := t;
     time_after_heartbeat := t;
     register_reply := Raises "connection refused";
     heartbeat_reply := Raises "connection refused";
     jobs_reply := fun _ => Raises "connection refused";
     result_reply := fun _ _ => Raises "connection refused" |}.

(** A world in which the server accepts everything and hands out [jobs]. *)
Definition online (t : Q) (jobs : list job_data) : world :=
  {| wall_clock := DateTime 0 12 0;
     time_at_check := t;
     time_after_heartbeat := t;
     register_reply := Returns true;
     heartbeat_reply := Returns true;
     jobs_reply := fun _ => Returns jobs;
     result_reply := fun _ _ => Returns true |}.

End AgentLoop.

(** ** jobs/factory.py and jobs/base_job.py: the rest *)

Module Factory.
Import Jobs.

(** The registry [JobFactory.__init__] starts with, over the two job
    classes. *)
Definition default_job_classes (ocr pdf_parse : JobClass)
  : gmap string JobClass :=
  <["pdf_parse" := pdf_parse]> (<["ocr" := ocr]> ∅).

(** [register_job_class]. *)
Definition register_job_class (ty : string) (cls : JobClass)
    (job_classes : gmap string JobClass) : gmap string JobClass :=
  <[ty := cls]> job_classes.

(** [get_supported_job_types]: the keys of the registry, as a set (the
    order of the list returned, that of registration, is not kept by the
    map). *)
Definition get_supported_job_types (job_classes : gmap string JobClass)
  : gset string :=
  dom job_classes.

(** The assignment with other parameters. *)
Definition set_parameters (params : gmap string string) (jd : job_data)
  : job_data :=
  {| jd_job_id := jd_job_id jd;
     jd_job_type := jd_job_type jd;
     jd_priority := jd_priority jd;
     jd_timeout_seconds := jd_timeout_seconds jd;
     jd_parameters := params |}.

(** [BaseJob.update_progress] on the job's [progress] attribute:
    [max(0.0, min(100.0, progress))]. *)
Definition update_progress (progress : Q) : Q :=
  Qmax 0 (Qmin 100 progress).

End Factory.

(** ** core/config.py: merging the user's configuration into the default *)

Module Config.

(** A configuration value: a dictionary with string keys, in insertion
    order, or any other value ([V]). *)
#[warnings="-register-all"]
Inductive cfg (V : Type) : Type :=
| Leaf (v : V)
| Dict (items : list (string * cfg V)).
Arguments Leaf {V} v.
Arguments Dict {V} items.

Section Merge.
Context {V : Type}.

(** [d.get(k)] and [k in d]. *)
Fixpoint dict_get (k : string) (d : list (string * cfg V)) : option (cfg V) :=
  match d with
  | [] => None
  | (k', v) :: rest => if String.eqb k' k then Some v else dict_get k rest
  end.

(** [d[k] = v]: an existing key keeps its place, a new one goes last. *)
Fixpoint dict_set (k : string) (v : cfg V) (d : list (string * cfg V))
  : list (string * cfg V) :=
  match d with
  | [] => [(k, v)]
  | (k', v') :: rest =>
      if String.eqb k' k then (k, v) :: rest else (k', v') :: dict_set k v rest
  end.

Definition keys (d : list (string * cfg V)) : list string := map fst d.

(** What ends up under a key that the base holds [b] for and the override
    [o]: two dictionaries are merged key by key, anything else is
    replaced by the override's value. [merge_items] is the [for] loop of
    [_merge_configs] over the override's items. *)
Fixpoint merge_value (b o : cfg V) {struct o} : cfg V :=
  match o, b with
  | Dict override, Dict base =>
      Dict ((fix merge_items (override : list (string * cfg V))
                             (base : list (string * cfg V))
               : list (string * cfg V) :=
               match override with
               | [] => base
               | (k, v) :: rest =>
                   merge_items rest
                     (dict_set k
                        (match dict_get k base with
                         | Some bk => merge_value bk v
                         | None => v
                         end) base)
               end) override base)
  | _, _ => o
  end.

(** [_merge_configs(base_config, override_config)]: the base after the
    call. *)
Fixpoint merge_configs (base override : list (string * cfg V))
  : list (string * cfg V) :=
  match override with
  | [] => base
  | (k, v) :: rest =>
      merge_configs
        (dict_set k
           (match dict_get k base with
            | Some bk => merge_value bk v
            | None => v
            end) base)
        rest
  end.

(** The value found by following a path of keys. *)
Fixpoint get_path (path : list string) (c : cfg V) : option (cfg V) :=
  match path, c with
  | [], _ => Some c
  | k :: rest, Dict items =>
      match dict_get k items with
      | Some v => get_path rest v
      | None => None
      end
  | _ :: _, Leaf _ => None
  end.

(** The override leaves the path alone: at some key of the path it has no
    entry, having had sections up to there. *)
Fixpoint untouched (path : list string) (override : list (string * cfg V))
  : Prop :=
  match path with
  | [] => False
  | k :: rest =>
      match dict_get k override with
      | None => True
      | Some (Dict inner) => untouched rest inner
      | Some (Leaf _) => False
      end
  end.

(** No key occurs twice in a dictionary, at any depth below [c] along any
    path: what every Python dictionary satisfies. *)
Fixpoint well_formed (c : cfg V) : Prop :=
  match c with
  | Leaf _ => True
  | Dict items =>
      NoDup (map fst items)
      /\ (fix all (l : list (string * cfg V)) : Prop :=
            match l with
            | [] => True
            | (_, v) :: rest => well_formed v /\ all rest
            end) items
  end.

End Merge.

(** The [resources] section of the default configuration and a user file
    that raises the CPU limit, with integers for leaves. *)
Definition default_resources : list (string * cfg Z) :=
  [("resources",
    Dict [("max_cpu_percent", Leaf 80); ("max_memory_percent", Leaf 70);
          ("min_free_disk_space_mb", Leaf 1000); ("concurrent_jobs", Leaf 2)])].

Definition user_resources : list (string * cfg Z) :=
  [("resources", Dict [("max_cpu_percent", Leaf 50)])].

End Config.

(** ** Shortening of recognised text: jobs/ocr_job.py and api/server_api.py *)

Module TextContent.
Import Jobs.

(** The limit on the characters of ["text_content"], and the marker put
    after a shortened text. A string is taken as its sequence of
    characters. *)
Definition text_limit : nat := 100 * 100.
Definition truncation_marker : string := "... [truncated]".

(** [s[:n]]. *)
Definition take_chars (n : nat) (s : string) : string := String.substring 0 n s.

(** The ["text_content"] entry of the result of [OCRJob._process_job]:
    [all_text[:10000] if len(all_text) <= 10000 else all_text[:10000] +
    "... [truncated]"]. *)
Definition ocr_text_content (all_text : string) : string :=
  if (String.length all_text <=? text_limit)%nat
  then take_chars text_limit all_text
  else take_chars text_limit all_text +:+ truncation_marker.






End TextContent.

(** ** jobs/pdf_parse_job.py: page ranges *)

Module PageRange.

(** [c in s] for a one-character [c]. *)
Fixpoint contains_char (c : ascii) (s : string) : bool :=
  match s with
  | EmptyString => false
  | String x rest => Ascii.eqb x c || contains_char c rest
  end.

(** [s.split(c)] for a one-character separator: the pieces between the
    separators, empty ones included; the empty string gives one empty
    piece. *)
Fixpoint split_on (c : ascii) (s : string) : list string :=
  match s with
  | EmptyString => [EmptyString]
  | String x rest =>
      if Ascii.eqb x c then EmptyString :: split_on c rest
      else match split_on c rest with
           | piece :: pieces => String x piece :: pieces
           | [] => [String x EmptyString]
           end
  end.

(** [0 <= p < total_pages]. *)
Definition in_range (total_pages : Z) (p : Z) : bool :=
  (0 <=? p) && (p <? total_pages).

Section Parser.
(** Python's [int] on strings, [None] standing for its [ValueError]. *)
Variable int_of : string -> option Z.

(** The pages one part of the list stands for, before filtering: the body
    of the [for] loop. Unpacking [part.split("-")] into two names raises
    unless there are exactly two pieces. *)
Definition parse_part (part : string) : option (list Z) :=
  if contains_char "-" part then
    match split_on "-" part with
    | [first; last] =>
        match int_of first with
        | None => None
        | Some start =>
            match int_of last with
            | None => None
            | Some stop => Some (seqZ (start - 1) (stop - (start - 1)))
            end
        end
    | _ => None
    end
  else
    match int_of part with
    | None => None
    | Some n => Some [n - 1]
    end.

(** The [for] loop over the parts: the pages in the order written, or the
    first exception. *)
Fixpoint parse_parts (parts : list string) : option (list Z) :=
  match parts with
  | [] => Some []
  | part :: rest =>
      match parse_part part with
      | None => None
      | Some pages =>
          match parse_parts rest with
          | None => None
          | Some more => Some (pages ++ more)
          end
      end
  end.

(** [_parse_page_range]. *)
Definition parse_page_range (page_range : string) (total_pages : Z)
  : option (list Z) :=
  if String.eqb page_range "all" then Some (seqZ 0 total_pages)
  else
    match parse_parts (split_on "," page_range) with
    | None => None
    | Some pages => Some (List.filter (in_range total_pages) pages)
    end.

End Parser.

(** [int] on the plain decimal numerals of one to three digits used in the
    examples; [int] itself accepts more (longer numerals, signs, blanks,
    underscores). *)
Definition digit_value (c : ascii) : option Z :=
  let n := nat_of_ascii c in
  if (48 <=? n)%nat && (n <=? 57)%nat then Some (Z.of_nat (n - 48)) else None.

Definition plain_int (s : string) : option Z :=
  match s with
  | String a EmptyString => digit_value a
  | String a (String b EmptyString) =>
      match digit_value a, digit_value b with
      | Some x, Some y => Some (10 * x + y)
      | _, _ => None
      end
  | String a (String b (String c EmptyString)) =>
      match digit_value a, digit_value b, digit_value c with
      | Some x, Some y, Some z => Some (100 * x + 10 * y + z)
      | _, _, _ => None
      end
  | _ => None
  end.

End PageRange.

(** * Properties *)

(** ** Resource thresholds *)

Section Thresholds.
Import ResourceMonitor.

Lemma Qgtb_true (a b : Q) : Qgtb a b = true <-> (b < a)%Q.
Proof.
  unfold Qgtb. rewrite negb_true_iff. split.
  - intros Hb. apply Qnot_le_lt. intros Hle.
    apply Qle_bool_iff in Hle. congruence.
  - intros Hlt. destruct (Qle_bool a b) eqn:E; [|reflexivity].
    apply Qle_bool_iff in E. exfalso. apply (Qlt_not_le _ _ Hlt E).
Qed.

Lemma Qgtb_false (a b : Q) : Qgtb a b = false <-> (a <= b)%Q.
Proof.
  unfold Qgtb. rewrite negb_false_iff. apply Qle_bool_iff.
Qed.

(** [can_accept_jobs] passes its three guards exactly when each reading is
    at or within its threshold. *)
Lemma can_accept_jobs_true_iff (m : ResourceMonitor.t) :
  can_accept_jobs m = true <->
  (avg_cpu_percent m <= max_cpu_percent m)%Q
  /\ (avg_memory_percent m <= max_memory_percent m)%Q
  /\ min_free_disk_space_mb m <= current_free_disk_space_mb m.
Proof.
  unfold can_accept_jobs.
  destruct (Qgtb (avg_cpu_percent m) (max_cpu_percent m)) eqn:Ec;
    [apply Qgtb_true in Ec | apply Qgtb_false in Ec].
  { split; [discriminate|].
    intros (Hle & _). exfalso. apply (Qlt_not_le _ _ Ec Hle). }
  destruct (Qgtb (avg_memory_percent m) (max_memory_percent m)) eqn:Em;
    [apply Qgtb_true in Em | apply Qgtb_false in Em].
  { split; [discriminate|].
    intros (_ & Hle & _). exfalso. apply (Qlt_not_le _ _ Em Hle). }
  destruct (Z.ltb_spec (current_free_disk_space_mb m) (min_free_disk_space_mb m))
    as [Hd | Hd].
  { split; [discriminate|]. intros (_ & _ & Hle). lia. }
  split; [intros _; auto | reflexivity].
Qed.


(** C3: [can_accept_jobs] is false exactly when the averaged CPU percent
    is strictly above [max_cpu_percent], or the averaged memory percent is
    strictly above [max_memory_percent], or the latest free disk space is
    strictly below [min_free_disk_space_mb]; it is true exactly when all
    three comparisons are at or within the threshold. *)
Theorem can_accept_jobs_thresholds (m : ResourceMonitor.t) :
  (can_accept_jobs m = false <->
     (max_cpu_percent m < avg_cpu_percent m)%Q
     \/ (max_memory_percent m < avg_memory_percent m)%Q
     \/ current_free_disk_space_mb m < min_free_disk_space_mb m)
  /\ (can_accept_jobs m = true <->
     (avg_cpu_percent m <= max_cpu_percent m)%Q
     /\ (avg_memory_percent m <= max_memory_percent m)%Q
     /\ min_free_disk_space_mb m <= current_free_disk_space_mb m).
Proof.
  split; [|apply can_accept_jobs_true_iff].
  split.
  - intros Hclosed.
    destruct (Qlt_le_dec (max_cpu_percent m) (avg_cpu_percent m))
      as [Hc | Hc]; [left; exact Hc|].
    destruct (Qlt_le_dec (max_memory_percent m) (avg_memory_percent m))
      as [Hm | Hm]; [right; left; exact Hm|].
    destruct (Z_lt_le_dec (current_free_disk_space_mb m)
                          (min_free_disk_space_mb m))
      as [Hd | Hd]; [right; right; exact Hd|].
    assert (Hopen : can_accept_jobs m = true)
      by (apply can_accept_jobs_true_iff; repeat split; assumption).
    congruence.
  - intros Hover. apply not_true_iff_false. intros Hopen.
    apply can_accept_jobs_true_iff in Hopen.
    destruct Hopen as (Hc & Hm & Hd).
    destruct Hover as [Hover | [Hover | Hover]].
    + apply (Qlt_not_le _ _ Hover Hc).
    + apply (Qlt_not_le _ _ Hover Hm).
    + lia.
Qed.

End Thresholds.

Section SamplingWindow.
Import ResourceMonitor.

Lemma last_n_short {A : Type} (n : nat) (l : list A) :
  (length l <= n)%nat -> last_n n l = l.
Proof.
  intros Hle. unfold last_n.
  replace (length l - n)%nat with 0%nat by lia. reflexivity.
Qed.

Lemma last_n_length {A : Type} (n : nat) (l : list A) :
  length (last_n n l) = Nat.min n (length l).
Proof. unfold last_n. rewrite length_skipn. lia. Qed.

Lemma last_n_snoc {A : Type} (n : nat) (l : list A) (x : A) :
  last_n n (last_n n l ++ [x]) = last_n n (l ++ [x]).
Proof.
  destruct (Nat.le_gt_cases (length l) n) as [Hle | Hgt].
  - rewrite (last_n_short n l) by exact Hle. reflexivity.
  - assert (Hlen : length (last_n n l) = n) by (rewrite last_n_length; lia).
    unfold last_n at 1 3. rewrite !length_app, Hlen. simpl.
    replace (n + 1 - n)%nat with 1%nat by lia.
    replace (length l + 1 - n)%nat with ((length l - n) + 1)%nat by lia.
    rewrite <- (drop_drop (l ++ [x])).
    rewrite (drop_app_le l [x]) by lia.
    reflexivity.
Qed.

Lemma push_history_last_n (size : nat) (h : list Q) (x : Q) :
  (length h <= size)%nat ->
  push_history size h x = last_n size (h ++ [x]).
Proof.
  intros Hle. unfold push_history, last_n.
  rewrite length_app. simpl.
  destruct (Nat.ltb_spec size (length h + 1)) as [Hlt | Hge].
  - replace (length h + 1 - size)%nat with 1%nat by lia.
    destruct (h ++ [x]); reflexivity.
  - replace (length h + 1 - size)%nat with 0%nat by lia. reflexivity.
Qed.

Lemma push_history_nonempty (size : nat) (h : list Q) (x : Q) :
  (0 < size)%nat -> push_history size h x <> [].
Proof.
  intros Hpos. unfold push_history.
  destruct (Nat.ltb_spec size (length (h ++ [x]))) as [Hlt | Hge].
  - rewrite length_app in Hlt. simpl in Hlt.
    destruct h as [|a [|b h]]; simpl in *; try lia; discriminate.
  - destruct h; discriminate.
Qed.

Lemma run_snoc (m : ResourceMonitor.t) (rs : list reading) (r : reading) :
  run m (rs ++ [r]) = sample (run m rs) r.
Proof. unfold run. rewrite fold_left_app. reflexivity. Qed.

Lemma run_history_size (m : ResourceMonitor.t) (rs : list reading) :
  history_size (run m rs) = history_size m.
Proof.
  induction rs as [|r rs IH] using rev_ind; [reflexivity|].
  rewrite run_snoc. exact IH.
Qed.

(** From a monitor whose histories are empty, the histories are the last
    [history_size] readings fed so far, oldest first. *)
Lemma run_histories (m : ResourceMonitor.t) (rs : list reading) :
  cpu_history m = [] -> memory_history m = [] ->
  cpu_history (run m rs) = last_n (history_size m) (map r_cpu_percent rs)
  /\ memory_history (run m rs) = last_n (history_size m) (map r_memory_percent rs).
Proof.
  intros Hc Hm.
  induction rs as [|r rs [IHc IHm]] using rev_ind.
  - simpl. rewrite Hc, Hm. split; reflexivity.
  - rewrite run_snoc, !map_app. simpl.
    rewrite run_history_size.
    rewrite !push_history_last_n.
    + rewrite IHc, IHm, !last_n_snoc. split; reflexivity.
    + rewrite IHm, last_n_length. lia.
    + rewrite IHc, last_n_length. lia.
Qed.

Lemma sample_averages (m : ResourceMonitor.t) (r : reading) :
  (0 < history_size m)%nat ->
  avg_cpu_percent (sample m r) = mean (cpu_history (sample m r))
  /\ avg_memory_percent (sample m r) = mean (memory_history (sample m r)).
Proof.
  intros Hpos. simpl.
  pose proof (push_history_nonempty (history_size m) (cpu_history m)
                (r_cpu_percent r) Hpos) as Hc.
  pose proof (push_history_nonempty (history_size m) (memory_history m)
                (r_memory_percent r) Hpos) as Hm.
  destruct (push_history (history_size m) (cpu_history m) (r_cpu_percent r));
    [congruence|].
  destruct (push_history (history_size m) (memory_history m) (r_memory_percent r));
    [congruence|].
  split; reflexivity.
Qed.






End SamplingWindow.

(** ** Rounding to doubles *)

Section Rounding.
Import ResourceMonitor.
Local Open Scope Q_scope.











End Rounding.

Section SamplingRuns.
Import ResourceMonitor.

Lemma run_thresholds (m : ResourceMonitor.t) (rs : list reading) :
  max_cpu_percent (run m rs) = max_cpu_percent m
  /\ max_memory_percent (run m rs) = max_memory_percent m
  /\ min_free_disk_space_mb (run m rs) = min_free_disk_space_mb m.
Proof.
  induction rs as [|r rs IH] using rev_ind; [repeat split|].
  rewrite run_snoc. exact IH.
Qed.




End SamplingRuns.

(** ** Admission *)

Section Admission.
Import Jobs JobManager.

Lemma contains_true {V : Type} (d : gmap string V) (k : string) :
  contains d k = true <-> is_Some (d !! k).
Proof. unfold contains. apply bool_decide_eq_true. Qed.

Lemma contains_false {V : Type} (d : gmap string V) (k : string) :
  contains d k = false <-> d !! k = None.
Proof.
  unfold contains. rewrite bool_decide_eq_false.
  rewrite eq_None_not_Some. reflexivity.
Qed.

Lemma truthy_Some (o : option string) (s : string) :
  truthy o = Some s <-> o = Some s /\ s <> "".
Proof.
  unfold truthy. destruct o as [s'|]; [|split; [discriminate|intros [? _]; discriminate]].
  destruct (String.eqb_spec s' "") as [-> | Hne].
  - split; [discriminate|]. intros [[= <-] Hne]. congruence.
  - split.
    + intros [= <-]. split; [reflexivity | exact Hne].
    + intros [[= ->] _]. reflexivity.
Qed.

(** C10: when the assignment has no ["job_id"] key, or a falsy one,
    [add_job] returns [False] and the manager (pending queue, active set,
    completed set and all) is as it was. *)
Theorem add_job_without_id (jd : job_data) (m : JobManager.t) :
  jd_job_id jd = None \/ jd_job_id jd = Some "" ->
  add_job jd m = (false, m).
Proof.
  intros [H | H]; unfold add_job; rewrite H; reflexivity.
Qed.

Lemma add_job_without_id_witness :
  add_job Samples.anonymous_assignment (Samples.fresh Samples.quick_engine)
  = (false, Samples.fresh Samples.quick_engine).
Proof.
  apply add_job_without_id. left. reflexivity.
Defined.

(** C4: a call of [add_job] whose job id is already in the active set or
    in the completed set returns [False] and leaves the manager, hence its
    pending queue, active set and completed set, unchanged; this holds in
    every state, whatever calls came before. *)
Theorem add_job_known_id_rejected (jd : job_data) (jid : string)
    (m : JobManager.t) :
  jd_job_id jd = Some jid ->
  is_Some (active_jobs m !! jid) \/ is_Some (completed_jobs m !! jid) ->
  add_job jd m = (false, m).
Proof.
  intros Hid Hknown. unfold add_job. rewrite Hid.
  destruct (truthy (Some jid)) as [jid'|] eqn:Et; [|reflexivity].
  apply truthy_Some in Et. destruct Et as [[= <-] _].
  destruct Hknown as [Ha | Hc].
  - apply contains_true in Ha. rewrite Ha. reflexivity.
  - apply contains_true in Hc. rewrite Hc, orb_true_r. reflexivity.
Qed.

Lemma add_job_known_id_rejected_witness :
  add_job (Samples.ocr_assignment "job-1")
          (Samples.dispatched Samples.quick_engine)
  = (false, Samples.dispatched Samples.quick_engine).
Proof.
  apply (add_job_known_id_rejected _ "job-1"); [reflexivity|].
  left. apply contains_true. vm_compute. reflexivity.
Defined.

End Admission.

(** ** The bound on running jobs *)

Section SlotLimit.
Import Jobs JobManager.

Lemma add_job_ledger (jd : job_data) (m : JobManager.t) :
  active_jobs (add_job jd m).2 = active_jobs m
  /\ completed_jobs (add_job jd m).2 = completed_jobs m
  /\ concurrent_jobs (add_job jd m).2 = concurrent_jobs m
  /\ executor (add_job jd m).2 = executor m
  /\ job_classes (add_job jd m).2 = job_classes m.
Proof.
  unfold add_job. destruct (truthy (jd_job_id jd)); [|repeat split].
  destruct (contains (active_jobs m) s || contains (completed_jobs m) s);
    repeat split.
Qed.

Lemma remove_completed_job_ledger (jid : string) (m : JobManager.t) :
  active_jobs (remove_completed_job jid m) = active_jobs m
  /\ concurrent_jobs (remove_completed_job jid m) = concurrent_jobs m
  /\ job_queue (remove_completed_job jid m) = job_queue m
  /\ completed_jobs (remove_completed_job jid m) = delete jid (completed_jobs m).
Proof.
  unfold remove_completed_job.
  destruct (contains (completed_jobs m) jid) eqn:E; [repeat split|].
  apply contains_false in E. repeat split.
  symmetry. apply delete_id. exact E.
Qed.

Lemma size_delete_le {V : Type} (k : string) (d : gmap string V) :
  (size (delete k d) <= size d)%nat.
Proof. rewrite map_size_delete. destruct (d !! k); simpl; lia. Qed.

Lemma size_insert_le {V : Type} (k : string) (v : V) (d : gmap string V) :
  (size (<[k := v]> d) <= S (size d))%nat.
Proof. rewrite map_size_insert. destruct (d !! k); simpl; lia. Qed.

Lemma execute_job_ledger (i now : nat) (m m' : JobManager.t) :
  execute_job i now m = Some m' ->
  exists job res,
    executor m !! i = Some job
    /\ execute now job = Some res
    /\ active_jobs m' = delete (job_id job) (active_jobs m)
    /\ completed_jobs m' = <[job_id job := res]> (completed_jobs m)
    /\ concurrent_jobs m' = concurrent_jobs m
    /\ job_queue m' = job_queue m.
Proof.
  unfold execute_job. intros H.
  destruct (executor m !! i) as [job|] eqn:Ei; [|discriminate].
  destruct (execute now job) as [res|] eqn:Ex; [|discriminate].
  injection H as <-. exists job, res. repeat split; assumption.
Qed.

Lemma step_within_limit (s : system) (e : event) :
  within_limit s -> within_limit (step s e).
Proof.
  intros [Hle Hlt]. unfold within_limit, active_job_count in *.
  destruct e as [jd | | makedirs | | i now | jid]; simpl.
  - destruct (add_job_ledger jd (mgr s)) as (Ha & _ & Hn & _).
    destruct (pc s); simpl; rewrite ?Ha, ?Hn; split; auto.
  - destruct (pc s) eqn:Epc; try (split; [exact Hle | rewrite ?Epc; exact Hlt]).
    destruct (has_capacity (mgr s)) eqn:Ecap.
    + unfold has_capacity, active_job_count in Ecap.
      apply Z.ltb_lt in Ecap. simpl. split; [lia | intros _; exact Ecap].
    + split; [exact Hle | rewrite ?Epc; exact Hlt].
  - destruct (pc s) eqn:Epc; try (split; [exact Hle | rewrite ?Epc; exact Hlt]).
    assert (Hfree : Z.of_nat (size (active_jobs (mgr s))) < concurrent_jobs (mgr s))
      by (apply Hlt; discriminate).
    destruct (job_queue (mgr s)) as [|jd q]; simpl.
    + split; [exact Hle | congruence].
    + destruct (prepare_with makedirs (job_classes (mgr s)) jd); simpl;
        split; try exact Hle; try congruence; intros _; exact Hfree.
  - destruct (pc s) eqn:Epc; try (split; [exact Hle | rewrite ?Epc; exact Hlt]).
    assert (Hfree : Z.of_nat (size (active_jobs (mgr s))) < concurrent_jobs (mgr s))
      by (apply Hlt; discriminate).
    simpl. pose proof (size_insert_le (job_id job) job (active_jobs (mgr s))).
    split; [lia | congruence].
  - destruct (execute_job i now (mgr s)) as [m'|] eqn:Ex; [|split; assumption].
    destruct (execute_job_ledger _ _ _ _ Ex) as (job & res & _ & _ & Ha & _ & Hn & _).
    simpl. rewrite Ha, Hn.
    pose proof (size_delete_le (job_id job) (active_jobs (mgr s))).
    split; [lia | intros Hpc; specialize (Hlt Hpc); lia].
  - destruct (remove_completed_job_ledger jid (mgr s)) as (Ha & Hn & _).
    simpl. rewrite Ha, Hn. split; assumption.
Qed.

Lemma run_within_limit (es : list event) (s : system) :
  within_limit s -> within_limit (run s es).
Proof.
  revert s. induction es as [|e es IH]; intros s Hs; [exact Hs|].
  simpl. apply IH, step_within_limit, Hs.
Qed.

Lemma init_within_limit (classes : gmap string JobClass) (n : Z) (m : JobManager.t) :
  init classes n = Returns m ->
  concurrent_jobs m = n /\ within_limit (System m AtLoopHead).
Proof.
  unfold init. destruct (Z.leb_spec n 0) as [Hle | Hgt]; [discriminate|].
  intros [= <-]. split; [reflexivity|].
  unfold within_limit, active_job_count. simpl.
  rewrite map_size_empty. split; [lia | congruence].
Qed.

Lemma step_concurrent_jobs (s : system) (e : event) :
  concurrent_jobs (mgr (step s e)) = concurrent_jobs (mgr s).
Proof.
  destruct e as [jd | | makedirs | | i now | jid]; simpl.
  - apply add_job_ledger.
  - destruct (pc s); try reflexivity. destruct (has_capacity (mgr s)); reflexivity.
  - destruct (pc s); try reflexivity.
    destruct (job_queue (mgr s)); [reflexivity|].
    destruct (prepare_with makedirs (job_classes (mgr s)) j); reflexivity.
  - destruct (pc s); reflexivity.
  - destruct (execute_job i now (mgr s)) as [m'|] eqn:Ex; [|reflexivity].
    destruct (execute_job_ledger _ _ _ _ Ex) as (job & res & _ & _ & _ & _ & Hn & _).
    exact Hn.
  - apply remove_completed_job_ledger.
Qed.

Lemma run_concurrent_jobs (es : list event) (s : system) :
  concurrent_jobs (mgr (run s es)) = concurrent_jobs (mgr s).
Proof.
  revert s. induction es as [|e es IH]; intros s; [reflexivity|].
  simpl. rewrite IH. apply step_concurrent_jobs.
Qed.

(** The uninterrupted loop iteration is the three worker steps in a row. *)
Lemma worker_iteration_steps (m : JobManager.t) :
  run (System m AtLoopHead) [EvCheck; EvGet; EvTrack]
  = System (worker_iteration m) AtLoopHead.
Proof.
  unfold worker_iteration, worker_pass. simpl.
  destruct (has_capacity m); simpl; [|reflexivity].
  destruct (job_queue m) as [|jd q]; simpl; [reflexivity|].
  destruct (prepare_with creatable (job_classes m) jd); reflexivity.
Qed.

(** C5: from a freshly built manager, after any interleaving of
    admissions, worker steps (capacity check, dequeue, insertion into the
    active set), completions and acknowledgements, [active_job_count] is at
    most [concurrent_jobs], which stays the configured limit. *)
Theorem active_job_count_bounded (classes : gmap string JobClass) (n : Z)
    (m0 : JobManager.t) (es : list event) :
  init classes n = Returns m0 ->
  let s := run (System m0 AtLoopHead) es in
  concurrent_jobs (mgr s) = n /\ active_job_count (mgr s) <= n.
Proof.
  intros Hinit s.
  destruct (init_within_limit classes n m0 Hinit) as [Hn H0].
  assert (Hcj : concurrent_jobs (mgr s) = n)
    by (unfold s; rewrite run_concurrent_jobs; exact Hn).
  split; [exact Hcj|].
  rewrite <- Hcj. apply (run_within_limit es _ H0).
Qed.

End SlotLimit.

Section SlotLimitWitness.
Import Jobs JobManager.

Lemma active_job_count_bounded_witness :
  let s := run (System (Samples.fresh Samples.quick_engine) AtLoopHead)
               [EvAddJob (Samples.ocr_assignment "job-1");
                EvAddJob (Samples.ocr_assignment "job-2");
                EvAddJob (Samples.ocr_assignment "job-3");
                EvCheck; EvGet; EvTrack; EvCheck; EvGet; EvTrack;
                EvCheck; EvGet; EvTrack; EvFinish 0 7] in
  concurrent_jobs (mgr s) = 2 /\ active_job_count (mgr s) <= 2.
Proof.
  apply (active_job_count_bounded (Samples.registry Samples.quick_engine) 2).
  reflexivity.
Defined.

End SlotLimitWitness.

(** ** One place per job id *)

Section OnePlace.
Import Jobs JobManager.

(** [add_job] looks the id up in the active and the completed set only:
    what the pending queue holds plays no part in the answer. *)
Lemma add_job_ignores_queue (jd : job_data) (jid : string) (m : JobManager.t) :
  jd_job_id jd = Some jid -> jid <> "" ->
  active_jobs m !! jid = None -> completed_jobs m !! jid = None ->
  add_job jd m = (true, set_queue (job_queue m ++ [jd]) m).
Proof.
  intros Hid Hne Ha Hc. unfold add_job.
  assert (Ht : truthy (jd_job_id jd) = Some jid)
    by (apply truthy_Some; split; assumption).
  rewrite Ht.
  apply contains_false in Ha. apply contains_false in Hc.
  rewrite Ha, Hc. reflexivity.
Qed.

(** C1, at the input where the code departs from it: the assignment
    ["job-1"] sent twice before the worker runs is admitted twice, the
    pending queue then holds two entries for it, and after one dispatch the
    id is both in the queue and in the active set; once the first run has
    completed and the second entry is dispatched, the id is both in the
    active and in the completed set. *)
Theorem add_job_resent_while_queued :
  let jd := Samples.ocr_assignment "job-1" in
  let m0 := Samples.fresh Samples.quick_engine in
  let m1 := (add_job jd m0).2 in
  let m2 := (add_job jd m1).2 in
  (add_job jd m0).1 = true
  /\ (add_job jd m1).1 = true
  /\ queued_entries "job-1" m2 = [jd; jd]
  /\ queued_entries "job-1" (worker_iteration m2) = [jd]
  /\ is_Some (active_jobs (worker_iteration m2) !! "job-1")
  /\ places "job-1" (worker_iteration m2) = 2%nat
  /\ (let s := run (System m0 AtLoopHead)
                   [EvAddJob jd; EvAddJob jd; EvCheck; EvGet; EvTrack;
                    EvFinish 0 7; EvCheck; EvGet; EvTrack] in
      is_Some (active_jobs (mgr s) !! "job-1")
      /\ is_Some (completed_jobs (mgr s) !! "job-1")).
Proof.
  cbv zeta.
  split; [vm_compute; reflexivity|].
  split; [vm_compute; reflexivity|].
  split; [vm_compute; reflexivity|].
  split; [vm_compute; reflexivity|].
  split; [apply contains_true; vm_compute; reflexivity|].
  split; [vm_compute; reflexivity|].
  split; apply contains_true; vm_compute; reflexivity.
Qed.

End OnePlace.

(** ** Flushing completed results *)

Section Flush.
Import Jobs JobManager NodeAgent.

Lemma report_one_lookup (send : reporter) (m : JobManager.t)
    (entry : string * JobResult) (k : string) :
  completed_jobs (report_one send m entry) !! k
  = if hit send k entry then None else completed_jobs m !! k.
Proof.
  unfold report_one, hit.
  destruct (acknowledged send entry.1 entry.2);
    [|rewrite andb_false_r; reflexivity].
  rewrite andb_true_r.
  destruct (remove_completed_job_ledger entry.1 m) as (_ & _ & _ & ->).
  destruct (String.eqb_spec entry.1 k) as [-> | Hne].
  - apply lookup_delete_eq.
  - apply lookup_delete_ne. exact Hne.
Qed.

Lemma flush_lookup (send : reporter) (entries : list (string * JobResult))
    (m : JobManager.t) (k : string) :
  completed_jobs (foldl (report_one send) m entries) !! k
  = if existsb (hit send k) entries then None else completed_jobs m !! k.
Proof.
  revert m. induction entries as [|entry entries IH]; intros m; [reflexivity|].
  simpl. rewrite IH, report_one_lookup.
  destruct (hit send k entry); simpl; [|reflexivity].
  destruct (existsb (hit send k) entries); reflexivity.
Qed.

Lemma report_one_rest (send : reporter) (m : JobManager.t)
    (entry : string * JobResult) :
  active_jobs (report_one send m entry) = active_jobs m
  /\ job_queue (report_one send m entry) = job_queue m.
Proof.
  unfold report_one. destruct (acknowledged send entry.1 entry.2); [|split; reflexivity].
  destruct (remove_completed_job_ledger entry.1 m) as (Ha & _ & Hq & _).
  split; assumption.
Qed.

Lemma flush_rest (send : reporter) (entries : list (string * JobResult))
    (m : JobManager.t) :
  active_jobs (foldl (report_one send) m entries) = active_jobs m
  /\ job_queue (foldl (report_one send) m entries) = job_queue m.
Proof.
  revert m. induction entries as [|entry entries IH]; intros m; [split; reflexivity|].
  simpl. destruct (IH (report_one send m entry)) as [-> ->].
  apply report_one_rest.
Qed.

(** What one flush does to the entry of [jid]. *)
Lemma process_job_results_lookup (send : reporter) (m : JobManager.t)
    (jid : string) :
  completed_jobs (process_job_results send m) !! jid
  = match completed_jobs m !! jid with
    | Some res => if acknowledged send jid res then None else Some res
    | None => None
    end.
Proof.
  unfold process_job_results, get_completed_jobs. rewrite flush_lookup.
  destruct (completed_jobs m !! jid) as [res|] eqn:E.
  - destruct (acknowledged send jid res) eqn:Eack.
    + assert (Hex : existsb (hit send jid) (map_to_list (completed_jobs m)) = true).
      { apply existsb_exists. exists (jid, res). split.
        - apply list_elem_of_In, elem_of_map_to_list. exact E.
        - unfold hit. simpl. rewrite String.eqb_refl, Eack. reflexivity. }
      rewrite Hex. reflexivity.
    + destruct (existsb (hit send jid) (map_to_list (completed_jobs m))) eqn:Hex;
        [|reflexivity].
      apply existsb_exists in Hex. destruct Hex as ([j r] & Hin & Hhit).
      apply list_elem_of_In, elem_of_map_to_list in Hin.
      unfold hit in Hhit. simpl in Hhit.
      apply andb_true_iff in Hhit. destruct Hhit as [Heq Hack].
      apply String.eqb_eq in Heq. subst j.
      rewrite E in Hin. injection Hin as <-. congruence.
  - destruct (existsb (hit send jid) (map_to_list (completed_jobs m)));
      reflexivity.
Qed.

(** Every step but the acknowledgement of [jid] keeps [jid] in the
    completed set. *)
Lemma step_keeps_completed (s : system) (e : event) (jid : string) :
  e <> EvAck jid ->
  is_Some (completed_jobs (mgr s) !! jid) ->
  is_Some (completed_jobs (mgr (step s e)) !! jid).
Proof.
  intros Hne Hin.
  destruct e as [jd | | makedirs | | i now | jid']; simpl.
  - destruct (add_job_ledger jd (mgr s)) as (_ & -> & _). exact Hin.
  - destruct (pc s); try exact Hin. destruct (has_capacity (mgr s)); exact Hin.
  - destruct (pc s); try exact Hin.
    destruct (job_queue (mgr s)); [exact Hin|].
    destruct (prepare_with makedirs (job_classes (mgr s)) j); exact Hin.
  - destruct (pc s); exact Hin.
  - destruct (execute_job i now (mgr s)) as [m'|] eqn:Ex; [|exact Hin].
    destruct (execute_job_ledger _ _ _ _ Ex) as (job & res & _ & _ & _ & Hc & _).
    simpl. rewrite Hc, lookup_insert_is_Some.
    destruct (decide (job_id job = jid)); [left; assumption | right; split; assumption].
  - destruct (remove_completed_job_ledger jid' (mgr s)) as (_ & _ & _ & Hc).
    simpl. rewrite Hc. rewrite lookup_delete_ne; [exact Hin|].
    intros ->. apply Hne. reflexivity.
Qed.

(** One flush, taken in one piece, keeps the entries whose report did not
    come back [True], with their result, and removes the others. *)
Lemma process_job_results_keeps (send : reporter) (m : JobManager.t)
    (jid : string) (res : JobResult) :
  completed_jobs m !! jid = Some res ->
  send jid res <> Returns true ->
  completed_jobs (process_job_results send m) !! jid = Some res.
Proof.
  intros E Hsend. rewrite process_job_results_lookup, E.
  unfold acknowledged. destruct (send jid res) as [[|]|]; congruence.
Qed.

(** With nothing happening while the flush waits, it is the flush taken in
    one piece. *)
Lemma interleaved_flush_alone (send : reporter) (s : system) :
  interleaved_flush send (fun _ => []) s
  = System (process_job_results send (mgr s)) (pc s).
Proof.
  unfold interleaved_flush, process_job_results, get_completed_jobs.
  generalize (map_to_list (completed_jobs (mgr s))). intros entries.
  destruct s as [m w]. simpl. revert m.
  induction entries as [|entry entries IH]; intros m; [reflexivity|].
  simpl. apply IH.
Qed.

(** C6, at the input where the code departs from it. ["job-1"], sent twice
    before the worker runs, is dispatched twice (the defect of C1). The
    first run stores its result, and the flush takes its copy of the
    completed set, which [get_completed_jobs] leaves as it is. While the
    flush sends that result the second run ends and its result replaces
    the stored one; the server acknowledges the first, the flush calls
    [remove_completed_job], and the entry is gone: the second result has
    left the completed set without any report of it having succeeded, and
    a flush of its own would have kept it, the server not acknowledging
    it. *)
Theorem completed_result_lost_unreported :
  let jd := Samples.ocr_assignment "job-1" in
  let s1 := run (System (Samples.fresh Samples.quick_engine) AtLoopHead)
                [EvAddJob jd; EvAddJob jd; EvCheck; EvGet; EvTrack;
                 EvCheck; EvGet; EvTrack; EvFinish 0 7] in
  let s2 := step s1 (EvFinish 0 9) in
  let first := completed_result 7 0 {[ "text" := "ok" ]} in
  let second := completed_result 9 0 {[ "text" := "ok" ]} in
  let send := Samples.acknowledges_started_at 7 in
  map_to_list (get_completed_jobs (mgr s1)).1 = [("job-1", first)]
  /\ (get_completed_jobs (mgr s1)).2 = mgr s1
  /\ completed_jobs (mgr s2) !! "job-1" = Some second
  /\ first <> second
  /\ acknowledged send "job-1" first = true
  /\ acknowledged send "job-1" second = false
  /\ completed_jobs (report_one send (mgr s2) ("job-1", first)) = ∅
  /\ completed_jobs (mgr (step s2 (EvAck "job-1"))) = ∅
  /\ completed_jobs
       (mgr (interleaved_flush send (fun _ => [EvFinish 0 9]) s1)) = ∅
  /\ completed_jobs (process_job_results send (mgr s2)) !! "job-1"
     = Some second.
Proof.
  cbv zeta.
  split; [vm_compute; reflexivity|].
  split; [reflexivity|].
  split; [vm_compute; reflexivity|].
  split; [discriminate|].
  split; [reflexivity|].
  split; [reflexivity|].
  split; [vm_compute; reflexivity|].
  split; [vm_compute; reflexivity|].
  split; vm_compute; reflexivity.
Qed.

End Flush.

(** ** Assignments that do not pass validation *)

Section Validation.
Import Jobs JobManager.

Lemma track_executor_last (job : Job) (m : JobManager.t) :
  executor (track job m) !! length (executor m) = Some job.
Proof. simpl. apply list_lookup_middle. reflexivity. Qed.

(** C7 as stated fails on both counts. An assignment of an unregistered
    type leaves the dispatch loop without any result recorded: the manager
    is the empty one again. An OCR assignment without its input file is
    put into the active set by the dispatch loop before anything validates
    it. *)
Lemma validation_failure_counterexample :
  (let m := Samples.queued Samples.quick_engine [Samples.unknown_assignment "job-1"] in
   has_capacity m = true
   /\ fails_validation (job_classes m) (Samples.unknown_assignment "job-1")
   /\ completed_jobs (worker_iteration m) !! "job-1" = None
   /\ worker_iteration m = Samples.fresh Samples.quick_engine)
  /\ (let m := Samples.queued Samples.quick_engine [Samples.ocr_without_input "job-2"] in
      has_capacity m = true
      /\ fails_validation (job_classes m) (Samples.ocr_without_input "job-2")
      /\ is_Some (active_jobs (worker_iteration m) !! "job-2")).
Proof.
  split.
  - cbv zeta. split; [vm_compute; reflexivity|].
    split; [vm_compute; exact I|].
    split; [vm_compute; reflexivity|].
    vm_compute. reflexivity.
  - cbv zeta. split; [vm_compute; reflexivity|].
    split.
    + unfold fails_validation. simpl.
      exists "Input file is required for OCR job". vm_compute. reflexivity.
    + apply contains_true. vm_compute. reflexivity.
Qed.

(** C7, amended: when the worker has capacity and dequeues an assignment
    with a job id, in any file system,
    - if the job's directory cannot be created, or the type is missing or
      not registered, or the constructor of the registered class raises,
      the assignment is dropped: the queue loses it and nothing else
      changes, so it is never in the active set and no result is recorded
      for it;
    - if the directory is created, the type is registered, the constructor
      returns and the class's parameter check raises, the job is put into
      the active set and handed to the pool; when its [_execute_job] runs,
      the failed result carrying the check's message is stored in the
      completed set and the job leaves the active set. *)
Theorem validation_failure_paths (makedirs : filesystem) (m : JobManager.t)
    (jd : job_data) (q : list job_data) (jid : string) :
  has_capacity m = true ->
  job_queue m = jd :: q ->
  truthy (jd_job_id jd) = Some jid ->
  (((exists msg, makedirs [jid] = Raises msg)
    \/ truthy (jd_job_type jd) = None
    \/ (exists ty, truthy (jd_job_type jd) = Some ty /\ job_classes m !! ty = None)
    \/ (exists ty cls msg,
          truthy (jd_job_type jd) = Some ty
          /\ job_classes m !! ty = Some cls
          /\ init_job cls makedirs jid jd = Raises msg)) ->
   worker_pass makedirs m = set_queue q m
   /\ active_jobs (worker_pass makedirs m) = active_jobs m
   /\ completed_jobs (worker_pass makedirs m) = completed_jobs m
   /\ executor (worker_pass makedirs m) = executor m)
  /\ (forall ty cls msg now,
        makedirs [jid] = Returns tt ->
        truthy (jd_job_type jd) = Some ty ->
        job_classes m !! ty = Some cls ->
        init_job cls makedirs jid jd = Returns tt ->
        validate_parameters cls jd = Raises msg ->
        let job := new_job cls jid jd in
        let m1 := worker_pass makedirs m in
        m1 = track job (set_queue q m)
        /\ active_jobs m1 !! jid = Some job
        /\ exists m2,
             execute_job (length (executor m)) now m1 = Some m2
             /\ completed_jobs m2 !! jid = Some (failed_result job now 0 msg)
             /\ active_jobs m2 !! jid = None).
Proof.
  intros Hcap Hq Hid. split.
  - intros Hdrop.
    assert (Hpass : worker_pass makedirs m = set_queue q m).
    { unfold worker_pass, prepare_with. rewrite Hcap, Hq, Hid.
      destruct Hdrop as [(msg & ->) | Hdrop]; [reflexivity|].
      destruct (makedirs [jid]) as [u|msg0]; [|reflexivity].
      destruct Hdrop as [-> | [(ty & -> & Hnone) | (ty & cls & msg & -> & Hcls & Hinit)]].
      - reflexivity.
      - unfold create_job. rewrite Hnone. reflexivity.
      - unfold create_job. rewrite Hcls, Hinit. reflexivity. }
    rewrite Hpass. repeat split.
  - intros ty cls msg now Hdir Hty Hcls Hinit Hval job m1.
    assert (Hm1 : m1 = track job (set_queue q m)).
    { unfold m1, worker_pass, prepare_with. rewrite Hcap, Hq, Hid, Hdir, Hty.
      unfold create_job. rewrite Hcls, Hinit. reflexivity. }
    split; [exact Hm1|]. rewrite Hm1.
    split; [simpl; apply lookup_insert_eq|].
    change (length (executor m)) with (length (executor (set_queue q m))).
    unfold execute_job. rewrite track_executor_last.
    unfold execute. simpl. rewrite Hval.
    eexists. split; [reflexivity|]. simpl.
    split; [apply lookup_insert_eq | apply lookup_delete_eq].
Qed.

(** An OCR assignment whose preprocessing options are a string is dropped
    by the constructor's [AttributeError]. *)
Lemma validation_failure_paths_witness :
  let jd := Samples.ocr_with_flat_options "job-3" in
  let m := Samples.queued Samples.quick_engine [jd] in
  worker_pass creatable m = set_queue [] m
  /\ active_jobs (worker_pass creatable m) = active_jobs m
  /\ completed_jobs (worker_pass creatable m) = completed_jobs m
  /\ executor (worker_pass creatable m) = executor m.
Proof.
  intros jd m.
  destruct (validation_failure_paths creatable m jd [] "job-3") as [Hdrop _];
    [vm_compute; reflexivity | reflexivity | reflexivity |].
  apply Hdrop. right. right. right.
  exists "ocr", (OCRJob Samples.quick_engine),
         "'str' object has no attribute 'get'".
  split; [reflexivity|]. split; vm_compute; reflexivity.
Defined.

End Validation.

(** ** Execution and the job's timeout *)

Section Timeout.
Import Jobs JobManager.

(** C2 as stated fails: with [timeout_seconds] = 1, a capability that never
    returns yields no result at all, whatever time has passed, and the job
    stays in the active set; a capability that returns after five seconds
    yields a completed result. *)
Lemma execute_timeout_counterexample :
  (let job := new_job (OCRJob Samples.stuck_engine) "job-1"
                      (Samples.ocr_assignment "job-1") in
   timeout_seconds job = 1
   /\ overruns job
   /\ execute 0 job = None
   /\ execute_job 0 3600 (Samples.dispatched Samples.stuck_engine) = None
   /\ is_Some (active_jobs (Samples.dispatched Samples.stuck_engine) !! "job-1"))
  /\ (let job := new_job (OCRJob Samples.slow_engine) "job-1"
                         (Samples.ocr_assignment "job-1") in
      timeout_seconds job = 1
      /\ overruns job
      /\ execute 0 job = Some (completed_result 0 5 {[ "text" := "ok" ]})).
Proof.
  split; cbv zeta.
  - split; [reflexivity|]. split; [exact I|].
    split; [vm_compute; reflexivity|].
    split; [vm_compute; reflexivity|].
    apply contains_true. vm_compute. reflexivity.
  - split; [reflexivity|]. split; [vm_compute; reflexivity|].
    vm_compute. reflexivity.
Qed.

Lemma execute_never_returns (now : nat) (job : Job) :
  never_returns job -> execute now job = None.
Proof.
  intros [[u Hval] Hproc]. unfold execute. rewrite Hval, Hproc. reflexivity.
Qed.

Lemma elem_of_delete_other {A : Type} (l : list A) (i j : nat) (x : A) :
  l !! j = Some x -> j <> i -> x ∈ delete i l.
Proof.
  intros Hj Hne. destruct (Nat.lt_ge_cases j i) as [Hlt | Hge].
  - apply (list_elem_of_lookup_2 _ j). rewrite list_lookup_delete_lt by exact Hlt.
    exact Hj.
  - apply (list_elem_of_lookup_2 _ (pred j)).
    rewrite list_lookup_delete_ge by lia.
    replace (S (pred j)) with j by lia. exact Hj.
Qed.

(** No step of any thread takes the task of a job that never returns out
    of the pool. *)
Lemma step_keeps_hanging (s : system) (e : event) (job : Job) :
  never_returns job ->
  job ∈ executor (mgr s) -> job ∈ executor (mgr (step s e)).
Proof.
  intros Hhang Hin.
  destruct e as [jd | | makedirs | | i now | jid]; simpl.
  - destruct (add_job_ledger jd (mgr s)) as (_ & _ & _ & -> & _). exact Hin.
  - destruct (pc s); try exact Hin. destruct (has_capacity (mgr s)); exact Hin.
  - destruct (pc s); try exact Hin.
    destruct (job_queue (mgr s)); [exact Hin|].
    destruct (prepare_with makedirs (job_classes (mgr s)) j); exact Hin.
  - destruct (pc s); try exact Hin. simpl.
    apply elem_of_app. left. exact Hin.
  - unfold execute_job.
    destruct (executor (mgr s) !! i) as [job'|] eqn:Ei; [|exact Hin].
    destruct (execute now job') as [res|] eqn:Ex; [|exact Hin].
    simpl. apply list_elem_of_lookup_1 in Hin. destruct Hin as [j Hj].
    apply (elem_of_delete_other _ i j); [exact Hj|].
    intros ->. rewrite Hj in Ei. injection Ei as <-.
    rewrite (execute_never_returns now job Hhang) in Ex. discriminate.
  - unfold remove_completed_job.
    destruct (contains (completed_jobs (mgr s)) jid); exact Hin.
Qed.

(** C2, amended: [execute] does not consult the job's [timeout_seconds]:
    changing it changes nothing. Once validation has passed, the outcome is
    the capability's own: a completed result when it returns, however long
    it took, a failed result with the capability's message when it raises,
    and no result while it has not returned. A failed result therefore
    always carries the message of the exception that validation or the
    capability raised. In the manager, the end of the task of a job whose
    capability never returns never comes: [_execute_job] yields no new
    state at any clock reading, the attempt leaves the whole system as it
    is (nothing is stored for the job, its entry in the active set is not
    removed), and the task stays in the pool through every later
    admission, worker step, completion and acknowledgement. *)
Theorem execute_ignores_timeout (now : nat) (job : Job) :
  (forall t, execute now (set_timeout t job) = execute now job)
  /\ (forall u,
        validate_parameters (job_class job) (job_data_of job) = Returns u ->
        execute now job
        = match process_job (job_class job) (job_data_of job) with
          | Finishes elapsed payload => Some (completed_result now elapsed payload)
          | Fails elapsed msg => Some (failed_result job now elapsed msg)
          | Hangs => None
          end)
  /\ (forall res,
        execute now job = Some res -> status res = "failed" ->
        exists msg elapsed,
          res = failed_result job now elapsed msg
          /\ (validate_parameters (job_class job) (job_data_of job) = Raises msg
              \/ process_job (job_class job) (job_data_of job) = Fails elapsed msg))
  /\ (forall (m : JobManager.t) (w : worker_pc) (i : nat),
        never_returns job ->
        executor m !! i = Some job ->
        execute_job i now m = None
        /\ step (System m w) (EvFinish i now) = System m w)
  /\ (forall (s : system) (es : list event),
        never_returns job ->
        job ∈ executor (mgr s) ->
        job ∈ executor (mgr (run s es))).
Proof.
  split; [|split; [|split; [|split]]].
  - intros t. reflexivity.
  - intros u Hval. unfold execute. rewrite Hval. reflexivity.
  - intros res Hex Hst. unfold execute in Hex.
    destruct (validate_parameters (job_class job) (job_data_of job))
      as [u | msg] eqn:Hval.
    + destruct (process_job (job_class job) (job_data_of job))
        as [elapsed payload | elapsed msg |] eqn:Hproc.
      * injection Hex as <-. discriminate Hst.
      * injection Hex as <-. exists msg, elapsed. split; [reflexivity | right; reflexivity].
      * discriminate Hex.
    + injection Hex as <-. exists msg, 0%nat. split; [reflexivity | left; reflexivity].
  - intros m w i Hhang Hi.
    assert (Hnone : execute_job i now m = None).
    { unfold execute_job. rewrite Hi, (execute_never_returns now job Hhang).
      reflexivity. }
    split; [exact Hnone|]. simpl. rewrite Hnone. reflexivity.
  - intros s es Hhang. revert s.
    induction es as [|e es IH]; intros s Hin; [exact Hin|].
    simpl. apply IH, step_keeps_hanging; assumption.
Qed.

(** A job with a one-second timeout whose capability never returns, once
    dispatched: the end of its task changes nothing, an hour later as at
    any other time. *)
Lemma execute_ignores_timeout_witness :
  let job := new_job (OCRJob Samples.stuck_engine) "job-1"
                     (Samples.ocr_assignment "job-1") in
  let m := Samples.dispatched Samples.stuck_engine in
  timeout_seconds job = 1
  /\ execute_job 0 3600 m = None
  /\ step (System m AtLoopHead) (EvFinish 0 3600) = System m AtLoopHead.
Proof.
  intros job m. split; [reflexivity|].
  destruct (execute_ignores_timeout 3600 job) as (_ & _ & _ & Hstuck & _).
  apply (Hstuck m AtLoopHead 0%nat).
  - split; [exists tt; vm_compute; reflexivity | reflexivity].
  - vm_compute. reflexivity.
Defined.

End Timeout.

(** ** The scheduling window *)

Section SchedulingWindow.
Import NodeAgent.

Lemma leb_str_le (a b : string) : String.leb a b = true <-> str_le a b.
Proof.
  unfold String.leb, str_le.
  destruct (String.compare a b); split; congruence.
Qed.

Lemma ltb_str_lt (a b : string) : String.ltb a b = true <-> str_lt a b.
Proof.
  unfold String.ltb, str_lt.
  destruct (String.compare a b); split; congruence.
Qed.

Lemma two_digits_compare (a b : nat) :
  (a < 100)%nat -> (b < 100)%nat ->
  String.compare (two_digits a) (two_digits b) = Nat.compare a b.
Proof.
  intros Ha Hb.
  assert (Htab : two_digits_table = true) by (vm_compute; reflexivity).
  unfold two_digits_table in Htab.
  rewrite forallb_forall in Htab.
  specialize (Htab a ltac:(apply in_seq; lia)).
  rewrite forallb_forall in Htab.
  specialize (Htab b ltac:(apply in_seq; lia)).
  destruct (String.compare (two_digits a) (two_digits b)), (a ?= b)%nat;
    congruence.
Qed.

Lemma compare_app (s1 s2 t1 t2 : string) :
  String.length s1 = String.length s2 ->
  String.compare (s1 +:+ t1) (s2 +:+ t2)
  = match String.compare s1 s2 with
    | Eq => String.compare t1 t2
    | c => c
    end.
Proof.
  revert s2. induction s1 as [|c1 s1 IH]; intros [|c2 s2] Hlen;
    try discriminate; [reflexivity|].
  simpl in Hlen. injection Hlen as Hlen.
  change (String c1 s1 +:+ t1) with (String c1 (s1 +:+ t1)).
  change (String c2 s2 +:+ t2) with (String c2 (s2 +:+ t2)).
  cbn [String.compare].
  destruct (Ascii.compare c1 c2); try reflexivity.
  apply IH. exact Hlen.
Qed.

(** On times the clock can show, the formatted strings are ordered as the
    times of day are: comparing ["%H:%M"] strings is comparing times. *)
Lemma hh_mm_compare (a b : datetime) :
  valid_time a -> valid_time b ->
  String.compare (hh_mm a) (hh_mm b)
  = Nat.compare (minutes_of_day a) (minutes_of_day b).
Proof.
  intros [Hha Hma] [Hhb Hmb]. unfold hh_mm, minutes_of_day.
  rewrite compare_app by reflexivity.
  rewrite two_digits_compare by lia.
  destruct (Nat.compare_spec (hour a) (hour b)) as [Heq | Hlt | Hgt].
  - rewrite (compare_app ":" ":") by reflexivity.
    cbn [String.compare Ascii.compare].
    rewrite two_digits_compare by lia. rewrite Heq.
    destruct (Nat.compare_spec (minute a) (minute b)); symmetry;
      [apply Nat.compare_eq_iff | apply Nat.compare_lt_iff
       | apply Nat.compare_gt_iff]; lia.
  - symmetry. apply Nat.compare_lt_iff. lia.
  - symmetry. apply Nat.compare_gt_iff. lia.
Qed.

Lemma hh_mm_le (a b : datetime) :
  valid_time a -> valid_time b ->
  str_le (hh_mm a) (hh_mm b) <-> (minutes_of_day a <= minutes_of_day b)%nat.
Proof.
  intros Ha Hb. unfold str_le. rewrite hh_mm_compare by assumption.
  apply Nat.compare_le_iff.
Qed.

Lemma hh_mm_lt (a b : datetime) :
  valid_time a -> valid_time b ->
  str_lt (hh_mm a) (hh_mm b) <-> (minutes_of_day a < minutes_of_day b)%nat.
Proof.
  intros Ha Hb. unfold str_lt. rewrite hh_mm_compare by assumption.
  apply Nat.compare_lt_iff.
Qed.

Lemma can_process_jobs_now_iff (cfg : scheduling) (now : datetime) :
  working_hours_only cfg = true ->
  (can_process_jobs_now cfg now = true <->
     day_name now ∈ working_days cfg
     /\ in_window (default "18:00" (working_hours_start cfg))
                  (default "08:00" (working_hours_end cfg))
                  (hh_mm now)).
Proof.
  intros Hon. unfold can_process_jobs_now, in_window. rewrite Hon. simpl.
  destruct (decide (day_name now ∈ working_days cfg)) as [Hday | Hday].
  2: { rewrite bool_decide_eq_false_2 by exact Hday. simpl.
       split; [discriminate | intros [? _]; contradiction]. }
  rewrite bool_decide_eq_true_2 by exact Hday. simpl.
  set (start_time := default "18:00" (working_hours_start cfg)).
  set (end_time := default "08:00" (working_hours_end cfg)).
  destruct (String.ltb end_time start_time) eqn:Ewrap.
  - assert (Hlt : str_lt end_time start_time) by (apply ltb_str_lt; exact Ewrap).
    rewrite orb_true_iff, !leb_str_le. split.
    + intros Hin. split; [exact Hday|]. split; [intros _; exact Hin | contradiction].
    + intros (_ & Hwrap & _). apply Hwrap, Hlt.
  - assert (Hnlt : ~ str_lt end_time start_time).
    { intros Hlt. apply ltb_str_lt in Hlt. congruence. }
    rewrite andb_true_iff, !leb_str_le. split.
    + intros Hin. split; [exact Hday|]. split; [contradiction | intros _; exact Hin].
    + intros (_ & _ & Hplain). apply Hplain, Hnlt.
Qed.

(** C8: with [working_hours_only] set, the check answers true exactly when
    today's name is among [working_days] and the formatted time is in the
    window, a window whose end is below its start as strings wrapping over
    midnight. When the bounds are written as the clock prints times, this
    is the comparison of the times of day themselves, in minutes since
    midnight, both bounds included: a window whose end is earlier than its
    start holds the times from the start on and those up to the end, any
    other window the times between start and end. With
    [working_hours_only] unset the answer is true at any time. With
    Mondays from 18:00 to 08:00: Monday 20:00 is inside, Tuesday 10:00 is
    not, Monday 07:00 is inside; Monday 10:00, 17:59 and 08:01 are
    outside, Monday 18:00 and 08:00 inside, Tuesday and Sunday 20:00
    outside. With weekends and no hours configured the window is 18:00 to
    08:00: Saturday 19:00 is inside, Sunday 12:00 and Friday 19:00 are
    not. The days are named as [strftime("%A")] names them. *)
Theorem can_process_jobs_now_window (cfg : scheduling) (now : datetime) :
  (working_hours_only cfg = true ->
   (can_process_jobs_now cfg now = true <->
      day_name now ∈ working_days cfg
      /\ in_window (default "18:00" (working_hours_start cfg))
                   (default "08:00" (working_hours_end cfg))
                   (hh_mm now)))
  /\ (forall s e : datetime,
        working_hours_only cfg = true ->
        working_hours_start cfg = Some (hh_mm s) ->
        working_hours_end cfg = Some (hh_mm e) ->
        valid_time s -> valid_time e -> valid_time now ->
        (can_process_jobs_now cfg now = true <->
           day_name now ∈ working_days cfg
           /\ if (minutes_of_day e <? minutes_of_day s)%nat
              then (minutes_of_day s <= minutes_of_day now)%nat
                   \/ (minutes_of_day now <= minutes_of_day e)%nat
              else (minutes_of_day s <= minutes_of_day now)%nat
                   /\ (minutes_of_day now <= minutes_of_day e)%nat))
  /\ (working_hours_only cfg = false -> can_process_jobs_now cfg now = true)
  /\ can_process_jobs_now monday_nights (DateTime 0 20 0) = true
  /\ can_process_jobs_now monday_nights (DateTime 1 10 0) = false
  /\ can_process_jobs_now monday_nights (DateTime 0 7 0) = true
  /\ can_process_jobs_now monday_nights (DateTime 0 10 0) = false
  /\ can_process_jobs_now monday_nights (DateTime 0 17 59) = false
  /\ can_process_jobs_now monday_nights (DateTime 0 18 0) = true
  /\ can_process_jobs_now monday_nights (DateTime 0 8 0) = true
  /\ can_process_jobs_now monday_nights (DateTime 0 8 1) = false
  /\ can_process_jobs_now monday_nights (DateTime 1 20 0) = false
  /\ can_process_jobs_now monday_nights (DateTime 6 20 0) = false
  /\ can_process_jobs_now weekend_default_hours (DateTime 5 19 0) = true
  /\ can_process_jobs_now weekend_default_hours (DateTime 6 12 0) = false
  /\ can_process_jobs_now weekend_default_hours (DateTime 4 19 0) = false
  /\ map (fun d => day_name (DateTime d 0 0)) (seq 0 7)
     = ["Monday"; "Tuesday"; "Wednesday"; "Thursday"; "Friday"; "Saturday";
        "Sunday"].
Proof.
  split; [apply can_process_jobs_now_iff|].
  split; [|split; [|repeat split; vm_compute; reflexivity]].
  - intros s e Hon Hs He Hvs Hve Hvn.
    rewrite (can_process_jobs_now_iff cfg now Hon), Hs, He.
    unfold in_window. cbn [default from_option id].
    rewrite (hh_mm_lt e s Hve Hvs), (hh_mm_le s now Hvs Hvn),
            (hh_mm_le now e Hvn Hve).
    destruct (Nat.ltb_spec (minutes_of_day e) (minutes_of_day s)) as [Hw | Hw].
    + split.
      * intros (Hday & Hwrap & _). split; [exact Hday | apply Hwrap; exact Hw].
      * intros (Hday & Hin). split; [exact Hday|].
        split; [intros _; exact Hin | intros Hn; contradiction].
    + split.
      * intros (Hday & _ & Hplain). split; [exact Hday | apply Hplain; lia].
      * intros (Hday & Hin). split; [exact Hday|].
        split; [intros Hlt; lia | intros _; exact Hin].
  - intros Hoff. unfold can_process_jobs_now. rewrite Hoff. reflexivity.
Qed.

(** A working day outside the window: Monday at 10:00 is refused, by the
    comparison of times of day. *)
Lemma can_process_jobs_now_window_witness :
  can_process_jobs_now monday_nights (DateTime 0 10 0) = false.
Proof.
  destruct (can_process_jobs_now_window monday_nights (DateTime 0 10 0))
    as (_ & Hminutes & _).
  destruct (Hminutes (DateTime 0 18 0) (DateTime 0 8 0)) as [Hin _];
    [reflexivity | reflexivity | reflexivity
     | split; simpl; lia | split; simpl; lia | split; simpl; lia |].
  destruct (can_process_jobs_now monday_nights (DateTime 0 10 0));
    [|reflexivity].
  destruct (Hin eq_refl) as [_ Hwrap]. vm_compute in Hwrap.
  destruct Hwrap as [Hle | Hle]; exfalso; revert Hle; clear; lia.
Defined.

End SchedulingWindow.

(** * Further properties of the ledger *)

Section Capacity.
Import Jobs JobManager.

(** X1: [has_capacity] and [get_available_capacity] agree in every state
    (capacity is reported exactly when at least one slot is counted free,
    and the count is never negative), and in every state reached from a
    freshly built manager the free slots and the active jobs add up to
    [concurrent_jobs]. *)
Theorem capacity_accounts (classes : gmap string JobClass) (n : Z)
    (m0 : JobManager.t) (es : list event) :
  init classes n = Returns m0 ->
  let m := mgr (run (System m0 AtLoopHead) es) in
  (has_capacity m = true <-> 0 < get_available_capacity m)
  /\ (has_capacity m = false <-> get_available_capacity m = 0)
  /\ get_available_capacity m + active_job_count m = n.
Proof.
  intros Hinit m.
  destruct (init_within_limit classes n m0 Hinit) as [Hn H0].
  pose proof (run_within_limit es _ H0) as [Hle _]. fold m in Hle.
  assert (Hcj : concurrent_jobs m = n)
    by (unfold m; rewrite run_concurrent_jobs; exact Hn).
  unfold has_capacity, get_available_capacity.
  rewrite Hcj in *.
  split; [|split].
  - rewrite Z.ltb_lt. lia.
  - rewrite Z.ltb_ge. lia.
  - lia.
Qed.

Lemma capacity_accounts_witness :
  let m := mgr (run (System (Samples.fresh Samples.quick_engine) AtLoopHead)
                    [EvAddJob (Samples.ocr_assignment "job-1");
                     EvCheck; EvGet; EvTrack]) in
  get_available_capacity m + active_job_count m = 2.
Proof.
  intros m.
  apply (capacity_accounts (Samples.registry Samples.quick_engine) 2
           (Samples.fresh Samples.quick_engine)).
  reflexivity.
Defined.

End Capacity.

Section QueuedIds.
Import Jobs JobManager Dispatch.

Lemma add_job_queue (jd : job_data) (m : JobManager.t) :
  job_queue (add_job jd m).2
  = if accepted_by m jd then job_queue m ++ [jd] else job_queue m.
Proof.
  unfold add_job, accepted_by.
  destruct (truthy (jd_job_id jd)) as [jid|]; [|reflexivity].
  destruct (contains (active_jobs m) jid || contains (completed_jobs m) jid);
    reflexivity.
Qed.

Lemma accepted_by_id (m : JobManager.t) (jd : job_data) :
  accepted_by m jd = true ->
  exists jid, jd_job_id jd = Some jid /\ jid <> "".
Proof.
  unfold accepted_by.
  destruct (truthy (jd_job_id jd)) as [jid|] eqn:Et; [|discriminate].
  intros _. exists jid. apply truthy_Some. exact Et.
Qed.

Lemma step_queue_has_ids (s : system) (e : event) :
  queue_has_ids (mgr s) -> queue_has_ids (mgr (step s e)).
Proof.
  unfold queue_has_ids. intros Hq.
  destruct e as [jd | | makedirs | | i now | jid]; simpl.
  - rewrite add_job_queue.
    destruct (accepted_by (mgr s) jd) eqn:Eacc; [|exact Hq].
    apply Forall_app. split; [exact Hq|].
    constructor; [|constructor]. exact (accepted_by_id _ _ Eacc).
  - destruct (pc s); try exact Hq. destruct (has_capacity (mgr s)); exact Hq.
  - destruct (pc s); try exact Hq.
    destruct (job_queue (mgr s)) as [|jd q] eqn:Eq;
      [simpl; rewrite Eq; constructor|].
    apply Forall_cons in Hq. destruct Hq as [_ Hq].
    destruct (prepare_with makedirs (job_classes (mgr s)) jd); exact Hq.
  - destruct (pc s); exact Hq.
  - destruct (execute_job i now (mgr s)) as [m'|] eqn:Ex; [|exact Hq].
    destruct (execute_job_ledger _ _ _ _ Ex) as (job & res & _ & _ & _ & _ & _ & Hqq).
    simpl. rewrite Hqq. exact Hq.
  - destruct (remove_completed_job_ledger jid (mgr s)) as (_ & _ & Hqq & _).
    simpl. rewrite Hqq. exact Hq.
Qed.

Lemma run_queue_has_ids (es : list event) (s : system) :
  queue_has_ids (mgr s) -> queue_has_ids (mgr (run s es)).
Proof.
  revert s. induction es as [|e es IH]; intros s Hs; [exact Hs|].
  simpl. apply IH, step_queue_has_ids, Hs.
Qed.

(** X2: in every state reached from a freshly built manager, each
    assignment waiting in the queue carries a non-empty job id, so the
    worker's "job data missing job_id" branch is never taken for it,
    whatever the file system answers. *)
Theorem queued_assignments_have_ids (classes : gmap string JobClass) (n : Z)
    (m0 : JobManager.t) (es : list event) (jd : job_data) :
  init classes n = Returns m0 ->
  let m := mgr (run (System m0 AtLoopHead) es) in
  jd ∈ job_queue m ->
  (exists jid, jd_job_id jd = Some jid /\ jid <> "")
  /\ prepare (job_classes m) jd <> Skipped
  /\ (forall makedirs, prepare_with makedirs (job_classes m) jd <> Skipped).
Proof.
  intros Hinit m Hin.
  assert (Hq : queue_has_ids m).
  { apply run_queue_has_ids. unfold init in Hinit.
    destruct (n <=? 0); [discriminate|]. injection Hinit as <-.
    constructor. }
  unfold queue_has_ids in Hq. rewrite Forall_forall in Hq.
  destruct (Hq jd Hin) as (jid & Hid & Hne).
  split; [exists jid; split; assumption|].
  assert (Ht : truthy (jd_job_id jd) = Some jid)
    by (apply truthy_Some; split; assumption).
  assert (Hany : forall makedirs,
             prepare_with makedirs (job_classes m) jd <> Skipped).
  { intros makedirs. unfold prepare_with. rewrite Ht.
    destruct (makedirs [jid]); [|discriminate].
    destruct (truthy (jd_job_type jd)); [|discriminate].
    destruct (create_job makedirs (job_classes m) s jid jd); discriminate. }
  split; [apply Hany | exact Hany].
Qed.

Lemma queued_assignments_have_ids_witness :
  let m := mgr (run (System (Samples.fresh Samples.quick_engine) AtLoopHead)
                    [EvAddJob Samples.anonymous_assignment;
                     EvAddJob (Samples.unknown_assignment "job-9")]) in
  prepare (job_classes m) (Samples.unknown_assignment "job-9") <> Skipped.
Proof.
  intros m.
  apply (queued_assignments_have_ids (Samples.registry Samples.quick_engine) 2
           (Samples.fresh Samples.quick_engine)
           [EvAddJob Samples.anonymous_assignment;
            EvAddJob (Samples.unknown_assignment "job-9")]);
    [reflexivity|].
  vm_compute. apply list_elem_of_In. left. reflexivity.
Defined.

End QueuedIds.

Section QueueOrder.
Import Jobs JobManager Dispatch.

Lemma accepted_by_ledger (m1 m2 : JobManager.t) (jd : job_data) :
  active_jobs m1 = active_jobs m2 ->
  completed_jobs m1 = completed_jobs m2 ->
  accepted_by m1 jd = accepted_by m2 jd.
Proof. intros Ha Hc. unfold accepted_by. rewrite Ha, Hc. reflexivity. Qed.

Lemma admit_all_ledger (jds : list job_data) (m : JobManager.t) :
  active_jobs (admit_all jds m) = active_jobs m
  /\ completed_jobs (admit_all jds m) = completed_jobs m
  /\ executor (admit_all jds m) = executor m
  /\ concurrent_jobs (admit_all jds m) = concurrent_jobs m.
Proof.
  revert m. induction jds as [|jd jds IH]; intros m; [repeat split|].
  unfold admit_all. simpl. fold (admit_all jds (add_job jd m).2).
  destruct (IH (add_job jd m).2) as (Ha & Hc & He & Hn).
  destruct (add_job_ledger jd m) as (Ha' & Hc' & Hn' & He' & _).
  rewrite Ha, Hc, He, Hn. repeat split; assumption.
Qed.

(** X3: a batch of assignments handed to [add_job] one after the other
    leaves the active set, the completed set and the pool alone and appends
    to the queue, in the order received, exactly the assignments that have
    a non-empty id not found in the active or completed set: nothing is
    reordered by priority, the batch is not cut to any capacity, and an id
    repeated within the batch is queued each time. *)
Theorem admit_all_appends (jds : list job_data) (m : JobManager.t) :
  job_queue (admit_all jds m) = job_queue m ++ List.filter (accepted_by m) jds
  /\ active_jobs (admit_all jds m) = active_jobs m
  /\ completed_jobs (admit_all jds m) = completed_jobs m
  /\ executor (admit_all jds m) = executor m
  /\ concurrent_jobs (admit_all jds m) = concurrent_jobs m.
Proof.
  split; [|apply admit_all_ledger].
  revert m. induction jds as [|jd jds IH]; intros m.
  - simpl. rewrite app_nil_r. reflexivity.
  - unfold admit_all. simpl. fold (admit_all jds (add_job jd m).2).
    destruct (add_job_ledger jd m) as (Ha' & Hc' & _).
    rewrite IH, add_job_queue.
    rewrite (List.filter_ext (accepted_by (add_job jd m).2) (accepted_by m))
      by (intros x; apply accepted_by_ledger; assumption).
    destruct (accepted_by m jd); [|reflexivity].
    rewrite <- app_assoc. reflexivity.
Qed.





End QueueOrder.

Section Lifecycle.
Import Jobs JobManager Dispatch NodeAgent.

(** X5: the whole path of one job. In a manager with an empty queue and a
    free slot, an assignment with a fresh id and a registered type, whose
    directory can be made, whose constructor returns, whose parameters
    validate and whose capability returns [payload], is admitted, is
    dispatched into the active set, and on completion is filed in the
    completed set as a completed result carrying [payload] unchanged while
    its slot and its pool task are released; a flush whose report is
    acknowledged then takes it out of the ledger. *)
Theorem job_round_trip (makedirs : filesystem) (m : JobManager.t)
    (jd : job_data) (jid ty : string)
    (cls : JobClass) (elapsed now : nat) (payload : gmap string string)
    (send : reporter) :
  job_queue m = [] -> has_capacity m = true ->
  jd_job_id jd = Some jid -> jid <> "" ->
  active_jobs m !! jid = None -> completed_jobs m !! jid = None ->
  makedirs [jid] = Returns tt ->
  truthy (jd_job_type jd) = Some ty -> job_classes m !! ty = Some cls ->
  init_job cls makedirs jid jd = Returns tt ->
  (exists u, validate_parameters cls jd = Returns u) ->
  process_job cls jd = Finishes elapsed payload ->
  let m1 := (add_job jd m).2 in
  let m2 := worker_pass makedirs m1 in
  (add_job jd m).1 = true
  /\ active_jobs m2 !! jid = Some (new_job cls jid jd)
  /\ job_queue m2 = []
  /\ exists m3,
       execute_job (length (executor m)) now m2 = Some m3
       /\ completed_jobs m3 !! jid = Some (completed_result now elapsed payload)
       /\ active_jobs m3 = active_jobs m
       /\ executor m3 = executor m
       /\ (send jid (completed_result now elapsed payload) = Returns true ->
           completed_jobs (process_job_results send m3) !! jid = None).
Proof.
  intros Hq Hcap Hid Hne Ha Hc Hdir Hty Hcls Hinit [u Hval] Hproc m1 m2.
  pose proof (add_job_ignores_queue jd jid m Hid Hne Ha Hc) as Hadd.
  assert (Ht : truthy (jd_job_id jd) = Some jid)
    by (apply truthy_Some; split; assumption).
  assert (Hm1 : m1 = set_queue [jd] m).
  { unfold m1. rewrite Hadd, Hq. reflexivity. }
  assert (Hm2 : m2 = track (new_job cls jid jd) (set_queue [] m)).
  { unfold m2. rewrite Hm1. unfold worker_pass, prepare_with, create_job.
    change (has_capacity (set_queue [jd] m)) with (has_capacity m).
    rewrite Hcap. simpl. rewrite Ht, Hdir, Hty, Hcls, Hinit. reflexivity. }
  split; [rewrite Hadd; reflexivity|].
  split; [rewrite Hm2; simpl; apply lookup_insert_eq|].
  split; [rewrite Hm2; reflexivity|].
  rewrite Hm2.
  change (length (executor m)) with (length (executor (set_queue [] m))).
  unfold execute_job. rewrite track_executor_last.
  unfold execute. simpl. rewrite Hval, Hproc.
  eexists. split; [reflexivity|]. simpl.
  split; [apply lookup_insert_eq|].
  split; [rewrite delete_insert_eq; apply delete_id; exact Ha|].
  split; [rewrite (delete_middle (executor m) []); apply app_nil_r|].
  intros Hack. rewrite process_job_results_lookup. simpl.
  rewrite lookup_insert_eq. unfold acknowledged. rewrite Hack. reflexivity.
Qed.

Lemma job_round_trip_witness :
  let m := Samples.fresh Samples.slow_engine in
  let jd := Samples.ocr_assignment "job-1" in
  exists m3,
    execute_job 0 7 (worker_pass creatable (add_job jd m).2) = Some m3
    /\ completed_jobs m3 !! "job-1"
       = Some (completed_result 7 5 {[ "text" := "ok" ]}).
Proof.
  intros m jd.
  destruct (job_round_trip creatable m jd "job-1" "ocr"
              (OCRJob Samples.slow_engine)
              5 7 {[ "text" := "ok" ]} (fun _ _ => Returns true))
    as (_ & _ & _ & m3 & Hrun & Hdone & _);
    [reflexivity | reflexivity | reflexivity | discriminate
     | reflexivity | reflexivity | reflexivity | reflexivity
     | vm_compute; reflexivity | vm_compute; reflexivity
     | exists tt; vm_compute; reflexivity | reflexivity |].
  exists m3. split; assumption.
Defined.

End Lifecycle.

Section FlushOrder.
Import Jobs JobManager NodeAgent.

Lemma existsb_permutation {A : Type} (f : A -> bool) (l1 l2 : list A) :
  l1 ≡ₚ l2 -> existsb f l1 = existsb f l2.
Proof.
  induction 1 as [|x l1 l2 _ IH|x y l|l1 l2 l3 _ IH1 _ IH2]; simpl.
  - reflexivity.
  - rewrite IH. reflexivity.
  - destruct (f x), (f y); reflexivity.
  - congruence.
Qed.

Lemma manager_eq (m1 m2 : JobManager.t) :
  concurrent_jobs m1 = concurrent_jobs m2 ->
  job_queue m1 = job_queue m2 ->
  active_jobs m1 = active_jobs m2 ->
  completed_jobs m1 = completed_jobs m2 ->
  executor m1 = executor m2 ->
  job_classes m1 = job_classes m2 ->
  m1 = m2.
Proof.
  destruct m1, m2. simpl. intros -> -> -> -> -> ->. reflexivity.
Qed.

Lemma report_one_other (send : reporter) (m : JobManager.t)
    (entry : string * JobResult) :
  concurrent_jobs (report_one send m entry) = concurrent_jobs m
  /\ executor (report_one send m entry) = executor m
  /\ job_classes (report_one send m entry) = job_classes m.
Proof.
  unfold report_one, remove_completed_job.
  destruct (acknowledged send entry.1 entry.2); [|repeat split].
  destruct (contains (completed_jobs m) entry.1); repeat split.
Qed.

Lemma flush_other (send : reporter) (entries : list (string * JobResult))
    (m : JobManager.t) :
  concurrent_jobs (foldl (report_one send) m entries) = concurrent_jobs m
  /\ executor (foldl (report_one send) m entries) = executor m
  /\ job_classes (foldl (report_one send) m entries) = job_classes m.
Proof.
  revert m. induction entries as [|entry entries IH]; intros m; [repeat split|].
  simpl. destruct (IH (report_one send m entry)) as (-> & -> & ->).
  apply report_one_other.
Qed.

(** X6: the outcome of a flush does not depend on the order in which the
    entries of the copy are reported: reporting them in any order gives the
    manager [process_job_results] gives. *)
Theorem flush_order_irrelevant (send : reporter) (m : JobManager.t)
    (entries : list (string * JobResult)) :
  entries ≡ₚ map_to_list (completed_jobs m) ->
  foldl (report_one send) m entries = process_job_results send m.
Proof.
  intros Hperm. unfold process_job_results, get_completed_jobs.
  destruct (flush_rest send entries m) as [Ha Hq].
  destruct (flush_rest send (map_to_list (completed_jobs m)) m) as [Ha' Hq'].
  destruct (flush_other send entries m) as (Hn & He & Hc).
  destruct (flush_other send (map_to_list (completed_jobs m)) m)
    as (Hn' & He' & Hc').
  apply manager_eq; try congruence.
  apply map_eq. intros k. rewrite !flush_lookup.
  rewrite (existsb_permutation _ _ _ Hperm). reflexivity.
Qed.

Lemma flush_order_irrelevant_witness :
  let m := mgr (run (System (Samples.fresh Samples.quick_engine) AtLoopHead)
                    [EvAddJob (Samples.ocr_assignment "job-1");
                     EvAddJob (Samples.ocr_assignment "job-2");
                     EvCheck; EvGet; EvTrack; EvCheck; EvGet; EvTrack;
                     EvFinish 0 7; EvFinish 0 8]) in
  let send : reporter := fun jid _ => Returns (String.eqb jid "job-2") in
  foldl (report_one send) m (reverse (map_to_list (completed_jobs m)))
  = process_job_results send m.
Proof.
  intros m send. apply flush_order_irrelevant. apply reverse_Permutation.
Defined.

End FlushOrder.

Section ActiveBacked.
Import Jobs JobManager Dispatch.

Lemma track_active_backed (job : Job) (m : JobManager.t) :
  active_backed m -> active_backed (track job m).
Proof.
  intros Hm k job0 Hk. simpl in Hk |- *.
  destruct (decide (job_id job = k)) as [<- | Hne].
  - rewrite lookup_insert_eq in Hk. injection Hk as <-.
    split; [reflexivity|].
    exists (length (executor m)), job. split; [|reflexivity].
    apply list_lookup_middle. reflexivity.
  - rewrite lookup_insert_ne in Hk by exact Hne.
    destruct (Hm k job0 Hk) as (Hid & i & job' & Hi & Hid').
    split; [exact Hid|]. exists i, job'. split; [|exact Hid'].
    apply lookup_app_l_Some. exact Hi.
Qed.

Lemma execute_job_active_backed (i now : nat) (m m' : JobManager.t) :
  execute_job i now m = Some m' -> active_backed m -> active_backed m'.
Proof.
  unfold execute_job. intros Hex Hm.
  destruct (executor m !! i) as [job|] eqn:Ei; [|discriminate].
  destruct (execute now job) as [res|]; [|discriminate].
  injection Hex as <-. intros k job0 Hk. simpl in Hk |- *.
  destruct (decide (job_id job = k)) as [<- | Hne].
  { rewrite lookup_delete_eq in Hk. discriminate. }
  rewrite lookup_delete_ne in Hk by exact Hne.
  destruct (Hm k job0 Hk) as (Hid & j & job' & Hj & Hid').
  split; [exact Hid|].
  assert (Hij : j <> i).
  { intros ->. rewrite Ei in Hj. injection Hj as <-. congruence. }
  destruct (Nat.lt_ge_cases j i) as [Hlt | Hge].
  - exists j, job'. split; [|exact Hid'].
    rewrite list_lookup_delete_lt by exact Hlt. exact Hj.
  - exists (pred j), job'. split; [|exact Hid'].
    rewrite list_lookup_delete_ge by lia.
    replace (S (pred j)) with j by lia. exact Hj.
Qed.

Lemma step_active_backed (s : system) (e : event) :
  active_backed (mgr s) -> active_backed (mgr (step s e)).
Proof.
  intros Hs.
  destruct e as [jd | | makedirs | | i now | jid]; simpl.
  - destruct (add_job_ledger jd (mgr s)) as (Ha & _ & _ & He & _).
    unfold active_backed. rewrite Ha, He. exact Hs.
  - destruct (pc s); try exact Hs. destruct (has_capacity (mgr s)); exact Hs.
  - destruct (pc s); try exact Hs.
    destruct (job_queue (mgr s)); [exact Hs|].
    destruct (prepare_with makedirs (job_classes (mgr s)) j); exact Hs.
  - destruct (pc s); try exact Hs. simpl. apply track_active_backed, Hs.
  - destruct (execute_job i now (mgr s)) as [m'|] eqn:Ex; [|exact Hs].
    simpl. exact (execute_job_active_backed _ _ _ _ Ex Hs).
  - unfold remove_completed_job.
    destruct (contains (completed_jobs (mgr s)) jid); exact Hs.
Qed.

Lemma run_active_backed (es : list event) (s : system) :
  active_backed (mgr s) -> active_backed (mgr (run s es)).
Proof.
  revert s. induction es as [|e es IH]; intros s Hs; [exact Hs|].
  simpl. apply IH, step_active_backed, Hs.
Qed.

(** X7: in every state reached from a freshly built manager, an entry of
    the active set is filed under the id of the job it holds, and the pool
    still has a task for that id: no slot stays taken without a task whose
    completion will free it. *)
Theorem active_jobs_have_tasks (classes : gmap string JobClass) (n : Z)
    (m0 : JobManager.t) (es : list event) (k : string) (job : Job) :
  init classes n = Returns m0 ->
  let m := mgr (run (System m0 AtLoopHead) es) in
  active_jobs m !! k = Some job ->
  job_id job = k
  /\ exists i job', executor m !! i = Some job' /\ job_id job' = k.
Proof.
  intros Hinit m Hk.
  assert (Hb : active_backed m).
  { apply run_active_backed. unfold init in Hinit.
    destruct (n <=? 0); [discriminate|]. injection Hinit as <-.
    intros k0 job0 H0. simpl in H0. rewrite lookup_empty in H0. discriminate. }
  exact (Hb k job Hk).
Qed.

Lemma active_jobs_have_tasks_witness :
  let m := mgr (run (System (Samples.fresh Samples.quick_engine) AtLoopHead)
                    [EvAddJob (Samples.ocr_assignment "job-1");
                     EvCheck; EvGet; EvTrack]) in
  exists i job', executor m !! i = Some job' /\ job_id job' = "job-1".
Proof.
  intros m.
  apply (active_jobs_have_tasks (Samples.registry Samples.quick_engine) 2
           (Samples.fresh Samples.quick_engine)
           [EvAddJob (Samples.ocr_assignment "job-1"); EvCheck; EvGet; EvTrack]
           "job-1"
           (new_job (OCRJob Samples.quick_engine) "job-1"
                    (Samples.ocr_assignment "job-1")));
    [reflexivity | vm_compute; reflexivity].
Defined.

End ActiveBacked.

(** * Further properties of the resource monitor *)

Section MonitorStartup.
Import ResourceMonitor.

(** X8: a monitor that has not sampled yet holds zero for both averages and
    for the free disk space, so it accepts jobs exactly when neither
    percentage threshold is negative and no free disk space is required:
    with any positive [min_free_disk_space_mb] it refuses jobs until the
    first sample has been taken. *)
Theorem fresh_monitor_refuses (max_cpu max_mem : Q) (min_disk : Z) :
  (can_accept_jobs (init max_cpu max_mem min_disk) = true <->
     (0 <= max_cpu)%Q /\ (0 <= max_mem)%Q /\ min_disk <= 0)
  /\ (0 < min_disk -> can_accept_jobs (init max_cpu max_mem min_disk) = false).
Proof.
  split.
  - rewrite can_accept_jobs_true_iff. reflexivity.
  - intros Hpos. apply not_true_iff_false. intros Hopen.
    apply can_accept_jobs_true_iff in Hopen.
    destruct Hopen as (_ & _ & Hd).
    change (min_disk <= 0) in Hd. lia.
Qed.

Lemma fresh_monitor_refuses_witness :
  can_accept_jobs (init 80 70 1000) = false.
Proof.
  apply (fresh_monitor_refuses 80 70 1000). reflexivity.
Defined.

End MonitorStartup.

Section MonitorBounds.
Import ResourceMonitor.




(** The monitor after a non-empty run, field by field. *)
Lemma run_snoc_fields (max_cpu max_mem : Q) (min_disk : Z)
    (rs : list reading) (r : reading) :
  run (init max_cpu max_mem min_disk) (rs ++ [r])
  = {| max_cpu_percent := max_cpu;
       max_memory_percent := max_mem;
       min_free_disk_space_mb := min_disk;
       current_cpu_percent := r_cpu_percent r;
       current_memory_percent := r_memory_percent r;
       current_free_disk_space_mb := free_mb r;
       avg_cpu_percent := mean (last_n 12 (map r_cpu_percent (rs ++ [r])));
       avg_memory_percent := mean (last_n 12 (map r_memory_percent (rs ++ [r])));
       cpu_history := last_n 12 (map r_cpu_percent (rs ++ [r]));
       memory_history := last_n 12 (map r_memory_percent (rs ++ [r]));
       history_size := 12 |}.
Proof.
  set (m := run (init max_cpu max_mem min_disk) (rs ++ [r])).
  destruct (run_histories (init max_cpu max_mem min_disk) (rs ++ [r])
              eq_refl eq_refl) as [Hc Hm].
  fold m in Hc, Hm. change (history_size (init max_cpu max_mem min_disk))
    with 12%nat in Hc, Hm.
  assert (Hsample : m = sample (run (init max_cpu max_mem min_disk) rs) r)
    by (unfold m; apply run_snoc).
  assert (Havg : avg_cpu_percent m = mean (cpu_history m)
                 /\ avg_memory_percent m = mean (memory_history m)).
  { rewrite Hsample. apply sample_averages.
    rewrite run_history_size. simpl. lia. }
  destruct Havg as [Hac Ham]. rewrite Hc in Hac. rewrite Hm in Ham.
  destruct (run_thresholds (init max_cpu max_mem min_disk) (rs ++ [r]))
    as (Htc & Htm & Htd).
  fold m in Htc, Htm, Htd. simpl in Htc, Htm, Htd.
  assert (Hsize : history_size m = 12%nat)
    by (unfold m; rewrite run_history_size; reflexivity).
  assert (Hcur : current_cpu_percent m = r_cpu_percent r
                 /\ current_memory_percent m = r_memory_percent r
                 /\ current_free_disk_space_mb m = free_mb r)
    by (rewrite Hsample; repeat split).
  destruct Hcur as (Hcc & Hcm & Hcd).
  destruct m. simpl in *. congruence.
Qed.



Lemma last_n_snoc_S {A : Type} (n : nat) (l : list A) (x : A) :
  last_n (S n) (l ++ [x]) = last_n n l ++ [x].
Proof.
  unfold last_n. rewrite length_app. simpl.
  replace (length l + 1 - S n)%nat with (length l - n)%nat by lia.
  apply drop_app_le. lia.
Qed.

(** X10: the monitor forgets everything older than its window: two runs of
    samples from fresh monitors with the same thresholds whose last twelve
    readings agree end in the same state, whatever came before. *)
Theorem window_determines_monitor (max_cpu max_mem : Q) (min_disk : Z)
    (rs1 rs2 : list reading) :
  rs1 <> [] -> rs2 <> [] ->
  last_n 12 rs1 = last_n 12 rs2 ->
  run (init max_cpu max_mem min_disk) rs1
  = run (init max_cpu max_mem min_disk) rs2.
Proof.
  intros Hne1 Hne2 Hwin.
  destruct (exists_last Hne1) as (a & r1 & ->).
  destruct (exists_last Hne2) as (b & r2 & ->).
  assert (Hmap : forall f : reading -> Q,
             last_n 12 (map f (a ++ [r1])) = last_n 12 (map f (b ++ [r2]))).
  { intros f. unfold last_n in *. rewrite !length_map, !skipn_map.
    f_equal. exact Hwin. }
  rewrite !last_n_snoc_S in Hwin.
  apply app_inj_tail in Hwin. destruct Hwin as [_ <-].
  rewrite !run_snoc_fields, !Hmap. reflexivity.
Qed.

Lemma window_determines_monitor_witness :
  run (init 80 70 1000) (repeat cool_reading 3 ++ repeat hot_reading 12)
  = run (init 80 70 1000) (repeat hot_reading 12).
Proof.
  apply window_determines_monitor; [discriminate | discriminate | reflexivity].
Defined.

End MonitorBounds.

(** * Further properties of the agent loop *)

Section AdvertisedHours.
Import NodeAgent AgentLoop.

(** The scheduling check with [working_hours_only] set, read as a
    proposition. *)
Lemma can_process_jobs_now_restricted (cfg : scheduling) (now : datetime) :
  working_hours_only cfg = true ->
  can_process_jobs_now cfg now = true <->
  day_name now ∈ working_days cfg
  /\ in_window (default "18:00" (working_hours_start cfg))
               (default "08:00" (working_hours_end cfg)) (hh_mm now).
Proof.
  intros Hon. unfold can_process_jobs_now, in_window. rewrite Hon.
  cbn [negb]. rewrite <- !ltb_str_lt, <- !leb_str_le.
  destruct (bool_decide_reflect (day_name now ∈ working_days cfg)) as [Hd | Hd];
    cbn [negb].
  - destruct (String.ltb _ _).
    + rewrite orb_true_iff. split.
      * intros H. split; [exact Hd|].
        split; [intros _; exact H | intros Hn; exfalso; apply Hn; reflexivity].
      * intros (_ & H & _). apply H. reflexivity.
    + rewrite andb_true_iff. split.
      * intros H. split; [exact Hd|]. split; [discriminate | intros _; exact H].
      * intros (_ & _ & H). apply H. discriminate.
  - split; [discriminate | intros [H _]; contradiction].
Qed.

Lemma whole_day_window (now : datetime) :
  valid_time now -> in_window "00:00" "23:59" (hh_mm now).
Proof.
  intros Hv. split.
  - intros Hlt. vm_compute in Hlt. discriminate.
  - intros _. split.
    + apply (hh_mm_le (DateTime 0 0 0) now); [split; simpl; lia | exact Hv|].
      unfold minutes_of_day. simpl. lia.
    + destruct Hv as [Hh Hm].
      apply (hh_mm_le now (DateTime 0 23 59)); [split; assumption | split; simpl; lia|].
      unfold minutes_of_day. simpl. lia.
Qed.

(** X11: what the node advertises at registration is what it enforces. For
    a time the clock can show and working days that do not use the name
    ["All"], the scheduling check allows processing exactly when one of the
    windows listed by [_get_available_hours] applies to the current day and
    time. *)
Theorem advertised_hours_are_enforced (cfg : scheduling) (now : datetime) :
  valid_time now ->
  "All" ∉ working_days cfg ->
  can_process_jobs_now cfg now = true <->
  exists w, w ∈ get_available_hours cfg /\ covers w now.
Proof.
  intros Hv Hall. unfold get_available_hours.
  destruct (working_hours_only cfg) eqn:Hon; cbn [negb].
  - rewrite (can_process_jobs_now_restricted cfg now Hon). split.
    + intros [Hday Hwin].
      exists (TimeWindow (day_name now) (default "18:00" (working_hours_start cfg))
                         (default "08:00" (working_hours_end cfg))).
      split.
      * apply list_elem_of_In, in_map_iff. exists (day_name now).
        split; [reflexivity | apply list_elem_of_In; exact Hday].
      * split; [right; reflexivity | exact Hwin].
    + intros (w & Hin & [Hday Hwin]).
      apply list_elem_of_In, in_map_iff in Hin.
      destruct Hin as (day & <- & Hin). apply list_elem_of_In in Hin.
      simpl in Hday, Hwin. split; [|exact Hwin].
      destruct Hday as [-> | ->]; [contradiction | exact Hin].
  - unfold can_process_jobs_now. rewrite Hon. cbn [negb]. split; [|reflexivity].
    intros _. exists (TimeWindow "All" "00:00" "23:59").
    split; [apply list_elem_of_In; left; reflexivity|].
    split; [left; reflexivity | apply whole_day_window; exact Hv].
Qed.

Lemma advertised_hours_are_enforced_witness :
  exists w, w ∈ get_available_hours monday_nights
            /\ covers w (DateTime 0 20 0).
Proof.
  apply (advertised_hours_are_enforced monday_nights (DateTime 0 20 0)).
  - split; simpl; lia.
  - intros Hin. apply list_elem_of_In in Hin. simpl in Hin.
    destruct Hin as [Heq | []]. discriminate.
  - vm_compute. reflexivity.
Defined.

End AdvertisedHours.

Section Registration.
Import Jobs JobManager NodeAgent AgentLoop Dispatch.

Lemma request_jobs_agent (w : world) (ag : agent) :
  sched (request_jobs w ag).2 = sched ag
  /\ heartbeat_interval_seconds (request_jobs w ag).2
     = heartbeat_interval_seconds ag
  /\ resource_monitor (request_jobs w ag).2 = resource_monitor ag
  /\ is_registered (request_jobs w ag).2 = is_registered ag
  /\ last_heartbeat_time (request_jobs w ag).2 = last_heartbeat_time ag.
Proof.
  unfold request_jobs.
  destruct (has_capacity (job_manager ag)); [|repeat split].
  destruct (ResourceMonitor.can_accept_jobs (resource_monitor ag));
    [|repeat split].
  destruct (can_process_jobs_now (sched ag) (wall_clock w)); [|repeat split].
  cbn [negb].
  destruct (jobs_reply w (get_available_capacity (job_manager ag)));
    repeat split.
Qed.

Lemma send_heartbeat_agent (reply : outcome bool) (t : Q) (ag : agent) :
  sched (send_heartbeat reply t ag).2 = sched ag
  /\ heartbeat_interval_seconds (send_heartbeat reply t ag).2
     = heartbeat_interval_seconds ag
  /\ resource_monitor (send_heartbeat reply t ag).2 = resource_monitor ag
  /\ job_manager (send_heartbeat reply t ag).2 = job_manager ag
  /\ is_registered (send_heartbeat reply t ag).2 = is_registered ag.
Proof. destruct reply; repeat split. Qed.

(** A pass of a registered agent, step by step. *)
Lemma main_pass_registered (w : world) (ag : agent) :
  is_registered ag = true ->
  let due := Qle_bool (inject_Z (heartbeat_interval_seconds ag))
                      (time_at_check w - last_heartbeat_time ag) in
  let ag2 := if due
             then (send_heartbeat (heartbeat_reply w) (time_after_heartbeat w) ag).2
             else ag in
  let ag3 := (request_jobs w ag2).2 in
  main_pass w ag
  = {| heartbeat_attempt := if due then Some (heartbeat_data ag) else None;
       capacity_requested := (request_jobs w ag2).1;
       sleep_seconds := 1;
       agent_after :=
         set_job_manager
           (process_job_results (result_reply w) (job_manager ag3)) ag3 |}.
Proof.
  intros Hreg. unfold main_pass. rewrite Hreg. cbn [negb].
  destruct (Qle_bool (inject_Z (heartbeat_interval_seconds ag))
                     (time_at_check w - last_heartbeat_time ag));
    cbn zeta.
  - destruct (request_jobs w
                (send_heartbeat (heartbeat_reply w) (time_after_heartbeat w) ag).2);
      reflexivity.
  - destruct (request_jobs w ag); reflexivity.
Qed.

Lemma main_pass_is_registered (w : world) (ag : agent) :
  is_registered (agent_after (main_pass w ag))
  = is_registered ag
    || match register_reply w with Returns true => true | _ => false end.
Proof.
  destruct (is_registered ag) eqn:Hreg.
  - rewrite (main_pass_registered w ag Hreg). cbn [agent_after set_job_manager
      is_registered orb].
    destruct (request_jobs_agent w
      (if Qle_bool (inject_Z (heartbeat_interval_seconds ag))
                   (time_at_check w - last_heartbeat_time ag)
       then (send_heartbeat (heartbeat_reply w) (time_after_heartbeat w) ag).2
       else ag)) as (_ & _ & _ & -> & _).
    destruct (Qle_bool _ _); [|exact Hreg].
    destruct (send_heartbeat_agent (heartbeat_reply w)
                (time_after_heartbeat w) ag) as (_ & _ & _ & _ & ->).
    exact Hreg.
  - unfold main_pass. rewrite Hreg. unfold register_with_server.
    destruct (register_reply w) as [[|]|msg]; cbn [negb orb agent_after];
      try exact Hreg.
    assert (Hset : is_registered (set_registered ag) = true) by reflexivity.
    pose proof (main_pass_registered w (set_registered ag) Hset) as Hpass.
    unfold main_pass in Hpass. rewrite Hset in Hpass. cbn [negb] in Hpass.
    rewrite Hpass. cbn [agent_after set_job_manager is_registered].
    destruct (request_jobs_agent w
      (if Qle_bool (inject_Z (heartbeat_interval_seconds (set_registered ag)))
                   (time_at_check w - last_heartbeat_time (set_registered ag))
       then (send_heartbeat (heartbeat_reply w) (time_after_heartbeat w)
                            (set_registered ag)).2
       else set_registered ag)) as (_ & _ & _ & -> & _).
    destruct (Qle_bool _ _); [|reflexivity].
    destruct (send_heartbeat_agent (heartbeat_reply w)
                (time_after_heartbeat w) (set_registered ag))
      as (_ & _ & _ & _ & ->).
    reflexivity.
Qed.

Lemma unregistered_pass (w : world) (ag : agent) :
  is_registered ag = false ->
  register_reply w <> Returns true ->
  main_pass w ag
  = {| heartbeat_attempt := None; capacity_requested := None;
       sleep_seconds := 30; agent_after := ag |}.
Proof.
  intros Hreg Hreply. unfold main_pass, register_with_server. rewrite Hreg.
  destruct (register_reply w) as [[|]|msg]; [congruence | reflexivity | reflexivity].
Qed.

(** X12: while the agent is not registered and no registration is
    acknowledged (the server answers [False] or the call raises), the main
    loop does nothing but try to register, however many passes it makes:
    each pass attempts no heartbeat, asks for no jobs, reports no result
    and sleeps thirty seconds, and after all of them the agent and its
    ledger are exactly as they were. *)
Theorem unregistered_pass_only_registers (ws : list world) (ag : agent) :
  is_registered ag = false ->
  (forall w, w ∈ ws -> register_reply w <> Returns true) ->
  main_loop ws ag = ag
  /\ (forall w, w ∈ ws ->
        main_pass w ag
        = {| heartbeat_attempt := None; capacity_requested := None;
             sleep_seconds := 30; agent_after := ag |}).
Proof.
  intros Hreg Hreplies. split.
  - induction ws as [|w ws IH]; [reflexivity|].
    unfold main_loop. simpl. fold (main_loop ws (agent_after (main_pass w ag))).
    rewrite (unregistered_pass w ag Hreg) by (apply Hreplies; left).
    apply IH. intros w' Hin. apply Hreplies. right. exact Hin.
  - intros w Hin. apply unregistered_pass; [exact Hreg | apply Hreplies, Hin].
Qed.

Lemma unregistered_pass_only_registers_witness :
  let ag := new_agent monday_nights 60 80 70 1000
                      (Samples.fresh Samples.quick_engine) in
  main_loop [offline 100; offline 130; offline 160] ag = ag.
Proof.
  intros ag. apply unregistered_pass_only_registers; [reflexivity|].
  intros w Hin. apply list_elem_of_In in Hin. simpl in Hin.
  destruct Hin as [<- | [<- | [<- | []]]]; discriminate.
Defined.

(** X13: registration is permanent and is the only way in: after any
    number of passes the agent is registered exactly when it was registered
    before or the server acknowledged the registration in one of the
    passes; nothing in the loop clears the flag. *)
Theorem registered_iff_acknowledged_once (ws : list world) (ag : agent) :
  is_registered (main_loop ws ag) = true <->
  is_registered ag = true
  \/ exists w, w ∈ ws /\ register_reply w = Returns true.
Proof.
  revert ag. induction ws as [|w ws IH]; intros ag.
  - simpl. split; [left; assumption|].
    intros [H | (w & Hin & _)]; [exact H|]. inversion Hin.
  - unfold main_loop. simpl. fold (main_loop ws (agent_after (main_pass w ag))).
    rewrite IH, main_pass_is_registered, orb_true_iff. split.
    + intros [[H | H] | (w' & Hin & Hack)].
      * left. exact H.
      * right. exists w. split; [left|].
        destruct (register_reply w) as [[|]|]; congruence.
      * right. exists w'. split; [right; exact Hin | exact Hack].
    + intros [H | (w' & Hin & Hack)].
      * left. left. exact H.
      * apply elem_of_cons in Hin. destruct Hin as [-> | Hin].
        -- left. right. rewrite Hack. reflexivity.
        -- right. exists w'. split; assumption.
Qed.

End Registration.

Section Heartbeat.
Import Jobs JobManager NodeAgent AgentLoop Dispatch.

Lemma set_job_manager_last (m : JobManager.t) (ag : agent) :
  last_heartbeat_time (set_job_manager m ag) = last_heartbeat_time ag.
Proof. reflexivity. Qed.

(** X14: the cadence of heartbeats. In a pass of a registered agent a
    heartbeat is attempted exactly when at least
    [heartbeat_interval_seconds] have passed since [last_heartbeat_time].
    When the API call returns, with [True] or with [False], the time of the
    last heartbeat becomes the clock reading taken after it, so a heartbeat
    the server refused is not repeated before another interval has passed;
    when the call raises, the time is left alone and the heartbeat is due
    again at the next pass. *)
Theorem heartbeat_cadence (w : world) (ag : agent) :
  is_registered ag = true ->
  let p := main_pass w ag in
  let elapsed := (time_at_check w - last_heartbeat_time ag)%Q in
  ((inject_Z (heartbeat_interval_seconds ag) <= elapsed)%Q ->
   heartbeat_attempt p = Some (heartbeat_data ag)
   /\ last_heartbeat_time (agent_after p)
      = match heartbeat_reply w with
        | Returns _ => time_after_heartbeat w
        | Raises _ => last_heartbeat_time ag
        end)
  /\ ((elapsed < inject_Z (heartbeat_interval_seconds ag))%Q ->
      heartbeat_attempt p = None
      /\ last_heartbeat_time (agent_after p) = last_heartbeat_time ag).
Proof.
  intros Hreg p elapsed. unfold p.
  rewrite (main_pass_registered w ag Hreg).
  cbn [heartbeat_attempt agent_after]. rewrite set_job_manager_last.
  fold elapsed.
  split.
  - intros Hdue. apply Qle_bool_iff in Hdue. rewrite Hdue.
    split; [reflexivity|].
    destruct (request_jobs_agent w
                (send_heartbeat (heartbeat_reply w) (time_after_heartbeat w) ag).2)
      as (_ & _ & _ & _ & ->).
    destruct (heartbeat_reply w); reflexivity.
  - intros Hearly.
    destruct (Qle_bool (inject_Z (heartbeat_interval_seconds ag)) elapsed) eqn:E.
    + apply Qle_bool_iff in E. exfalso. apply (Qlt_not_le _ _ Hearly E).
    + split; [reflexivity|].
      destruct (request_jobs_agent w ag) as (_ & _ & _ & _ & ->). reflexivity.
Qed.

Lemma heartbeat_cadence_witness :
  let ag := set_registered
              (new_agent monday_nights 60 80 70 1000
                         (Samples.fresh Samples.quick_engine)) in
  let w := {| wall_clock := DateTime 0 12 0;
              time_at_check := 100; time_after_heartbeat := 101;
              register_reply := Returns true;
              heartbeat_reply := Returns false;
              jobs_reply := fun _ => Returns [];
              result_reply := fun _ _ => Returns true |} in
  last_heartbeat_time (agent_after (main_pass w ag)) = 101%Q.
Proof.
  intros ag w.
  destruct (heartbeat_cadence w ag eq_refl) as [Hdue _].
  apply Hdue. vm_compute. discriminate.
Defined.

(** X15: what a heartbeat says. Its CPU and memory figures are the latest
    readings of the monitor, not the averages admission is decided on; its
    job count is the size of the active set; and its status is ["busy"]
    exactly when the active set is not empty, so a node whose jobs are all
    still waiting in the queue reports ["idle"]. *)
Theorem heartbeat_reports_latest (ag : agent) (max_cpu max_mem : Q)
    (min_disk : Z) (rs : list ResourceMonitor.reading)
    (r : ResourceMonitor.reading) :
  resource_monitor ag
  = ResourceMonitor.run (ResourceMonitor.init max_cpu max_mem min_disk)
                        (rs ++ [r]) ->
  hb_cpu_percent (heartbeat_data ag) = ResourceMonitor.r_cpu_percent r
  /\ hb_memory_percent (heartbeat_data ag) = ResourceMonitor.r_memory_percent r
  /\ hb_active_jobs (heartbeat_data ag)
     = Z.of_nat (size (active_jobs (job_manager ag)))
  /\ (hb_status (heartbeat_data ag) = "busy" <->
      active_jobs (job_manager ag) <> ∅)
  /\ (hb_status (heartbeat_data ag) = "idle" <->
      active_jobs (job_manager ag) = ∅).
Proof.
  intros Hmon. unfold heartbeat_data.
  cbn [hb_cpu_percent hb_memory_percent hb_active_jobs hb_status].
  rewrite Hmon, run_snoc_fields. cbn [ResourceMonitor.current_cpu_percent
    ResourceMonitor.current_memory_percent].
  split; [reflexivity|]. split; [reflexivity|]. split; [reflexivity|].
  unfold active_job_count.
  rewrite <- (map_size_empty_iff (active_jobs (job_manager ag))).
  destruct (Z.ltb_spec 0 (Z.of_nat (size (active_jobs (job_manager ag)))))
    as [Hpos | Hzero].
  - split; split; try discriminate; try (intros _; reflexivity); lia.
  - split; split; try discriminate; try lia; intros _; try reflexivity; lia.
Qed.

End Heartbeat.

Section HeartbeatWitness.
Import Jobs JobManager NodeAgent AgentLoop.

Lemma heartbeat_reports_latest_witness :
  let ag := {| sched := monday_nights;
               heartbeat_interval_seconds := 60;
               resource_monitor :=
                 ResourceMonitor.run (ResourceMonitor.init 80 70 1000)
                   ([ResourceMonitor.cool_reading] ++ [ResourceMonitor.hot_reading]);
               job_manager :=
                 (add_job (Samples.ocr_assignment "job-1")
                          (Samples.fresh Samples.quick_engine)).2;
               is_registered := true;
               last_heartbeat_time := 0 |} in
  hb_cpu_percent (heartbeat_data ag) = 95%Q
  /\ hb_status (heartbeat_data ag) = "idle".
Proof.
  intros ag.
  destruct (heartbeat_reports_latest ag 80 70 1000
              [ResourceMonitor.cool_reading] ResourceMonitor.hot_reading eq_refl)
    as (Hcpu & _ & _ & _ & Hidle).
  split; [exact Hcpu|]. apply Hidle. reflexivity.
Defined.

End HeartbeatWitness.

Section RequestJobs.
Import Jobs JobManager NodeAgent AgentLoop Dispatch.

Lemma set_job_manager_same (ag : agent) :
  set_job_manager (job_manager ag) ag = ag.
Proof. destruct ag. reflexivity. Qed.

(** X16: [request_jobs], taken as one uninterrupted call. The server is
    asked exactly when the manager has a free slot, the monitor accepts
    jobs and the scheduling window is open; otherwise the agent is left as
    it is. When it is asked, the capacity named is the positive number of
    free slots; an exception from the API leaves the agent as it is; a list
    of assignments is handed whole to [add_job], one assignment after the
    other, however long it is. In no case does the call touch the active
    or the completed set. *)
Theorem request_jobs_gated (w : world) (ag : agent) :
  let gate := has_capacity (job_manager ag)
              && ResourceMonitor.can_accept_jobs (resource_monitor ag)
              && can_process_jobs_now (sched ag) (wall_clock w) in
  let capacity := get_available_capacity (job_manager ag) in
  (gate = false -> request_jobs w ag = (None, ag))
  /\ (gate = true ->
      0 < capacity
      /\ (request_jobs w ag).1 = Some capacity
      /\ (forall msg, jobs_reply w capacity = Raises msg ->
            (request_jobs w ag).2 = ag)
      /\ (forall jobs, jobs_reply w capacity = Returns jobs ->
            (request_jobs w ag).2
            = set_job_manager (admit_all jobs (job_manager ag)) ag))
  /\ active_jobs (job_manager (request_jobs w ag).2)
     = active_jobs (job_manager ag)
  /\ completed_jobs (job_manager (request_jobs w ag).2)
     = completed_jobs (job_manager ag).
Proof.
  intros gate capacity. unfold gate, capacity, request_jobs.
  destruct (has_capacity (job_manager ag)) eqn:Hcap; cbn [negb andb].
  2: { split; [reflexivity|]. split; [discriminate | split; reflexivity]. }
  destruct (ResourceMonitor.can_accept_jobs (resource_monitor ag));
    cbn [negb andb].
  2: { split; [reflexivity|]. split; [discriminate | split; reflexivity]. }
  destruct (can_process_jobs_now (sched ag) (wall_clock w)); cbn [negb].
  2: { split; [reflexivity|]. split; [discriminate | split; reflexivity]. }
  split; [discriminate|].
  assert (Hpos : 0 < get_available_capacity (job_manager ag)).
  { unfold has_capacity in Hcap. apply Z.ltb_lt in Hcap.
    unfold get_available_capacity. lia. }
  destruct (jobs_reply w (get_available_capacity (job_manager ag)))
    as [jobs | msg] eqn:Hreply.
  - destruct (admit_all_ledger jobs (job_manager ag)) as (Ha & Hc & _).
    split; [|split; [exact Ha | exact Hc]].
    intros _. split; [exact Hpos|]. split; [reflexivity|].
    split; [discriminate|].
    intros jobs' [= <-]. reflexivity.
  - split; [|split; reflexivity].
    intros _. split; [exact Hpos|]. split; [reflexivity|].
    split; [intros; reflexivity | discriminate].
Qed.

Lemma request_jobs_gated_witness :
  let ag := {| sched := monday_nights;
               heartbeat_interval_seconds := 60;
               resource_monitor :=
                 ResourceMonitor.run (ResourceMonitor.init 80 70 1000)
                                     [ResourceMonitor.cool_reading];
               job_manager := Samples.fresh Samples.quick_engine;
               is_registered := true;
               last_heartbeat_time := 0 |} in
  let w := {| wall_clock := DateTime 0 20 0;
              time_at_check := 100; time_after_heartbeat := 101;
              register_reply := Returns true;
              heartbeat_reply := Returns true;
              jobs_reply := fun _ =>
                Returns [Samples.ocr_assignment "job-1";
                         Samples.ocr_assignment "job-2";
                         Samples.ocr_assignment "job-3"];
              result_reply := fun _ _ => Returns true |} in
  (request_jobs w ag).1 = Some 2
  /\ length (job_queue (job_manager (request_jobs w ag).2)) = 3%nat.
Proof.
  intros ag w.
  destruct (request_jobs_gated w ag) as (_ & Hopen & _).
  destruct Hopen as (_ & Hasked & _ & Hjobs); [vm_compute; reflexivity|].
  split; [exact Hasked|].
  rewrite (Hjobs [Samples.ocr_assignment "job-1";
                  Samples.ocr_assignment "job-2";
                  Samples.ocr_assignment "job-3"] eq_refl).
  reflexivity.
Defined.

End RequestJobs.

Section LoopLedger.
Import Jobs JobManager NodeAgent AgentLoop Dispatch.

Lemma admit_all_queue_prefix (jds : list job_data) (m : JobManager.t) :
  job_queue m `prefix_of` job_queue (admit_all jds m).
Proof.
  revert m. induction jds as [|jd jds IH]; intros m; [reflexivity|].
  unfold admit_all. simpl. fold (admit_all jds (add_job jd m).2).
  transitivity (job_queue (add_job jd m).2); [|apply IH].
  rewrite add_job_queue. destruct (accepted_by m jd); [|reflexivity].
  apply prefix_app_r. reflexivity.
Qed.

Lemma process_job_results_subseteq (send : reporter) (m : JobManager.t) :
  completed_jobs (process_job_results send m) ⊆ completed_jobs m.
Proof.
  apply map_subseteq_spec. intros k res.
  rewrite process_job_results_lookup.
  destruct (completed_jobs m !! k) as [res'|]; [|discriminate].
  destruct (acknowledged send k res'); [discriminate | tauto].
Qed.

Lemma agent_side_only_refl (m : JobManager.t) : agent_side_only m m.
Proof. repeat split; reflexivity. Qed.

Lemma agent_side_only_trans (m1 m2 m3 : JobManager.t) :
  agent_side_only m1 m2 -> agent_side_only m2 m3 -> agent_side_only m1 m3.
Proof.
  intros (Ha & He & Hn & Hc & Hq) (Ha' & He' & Hn' & Hc' & Hq').
  repeat split; try congruence.
  - transitivity (completed_jobs m2); assumption.
  - transitivity (job_queue m2); assumption.
Qed.

Lemma request_jobs_side (w : world) (ag : agent) :
  agent_side_only (job_manager ag) (job_manager (request_jobs w ag).2).
Proof.
  unfold request_jobs.
  destruct (has_capacity (job_manager ag)); [|apply agent_side_only_refl].
  destruct (ResourceMonitor.can_accept_jobs (resource_monitor ag));
    [|apply agent_side_only_refl].
  destruct (can_process_jobs_now (sched ag) (wall_clock w));
    [|apply agent_side_only_refl].
  cbn [negb].
  destruct (jobs_reply w (get_available_capacity (job_manager ag))) as [jobs|];
    [|apply agent_side_only_refl].
  cbn [snd job_manager set_job_manager].
  destruct (admit_all_ledger jobs (job_manager ag)) as (Ha & Hc & He & Hn).
  repeat split; try assumption.
  - rewrite Hc. reflexivity.
  - apply admit_all_queue_prefix.
Qed.

Lemma process_job_results_side (send : reporter) (m : JobManager.t) :
  agent_side_only m (process_job_results send m).
Proof.
  assert (Hfields : active_jobs (process_job_results send m) = active_jobs m
                    /\ job_queue (process_job_results send m) = job_queue m
                    /\ concurrent_jobs (process_job_results send m)
                       = concurrent_jobs m
                    /\ executor (process_job_results send m) = executor m).
  { unfold process_job_results, get_completed_jobs.
    destruct (flush_rest send (map_to_list (completed_jobs m)) m) as [Ha Hq].
    destruct (flush_other send (map_to_list (completed_jobs m)) m)
      as (Hn & He & _).
    repeat split; assumption. }
  destruct Hfields as (Ha & Hq & Hn & He).
  repeat split; try assumption.
  - apply process_job_results_subseteq.
  - rewrite Hq. reflexivity.
Qed.

Lemma main_pass_side (w : world) (ag : agent) :
  agent_side_only (job_manager ag) (job_manager (agent_after (main_pass w ag))).
Proof.
  assert (Hreg : forall ag0, is_registered ag0 = true ->
            agent_side_only (job_manager ag0)
                            (job_manager (agent_after (main_pass w ag0)))).
  { intros ag0 H0. rewrite (main_pass_registered w ag0 H0).
    cbn [agent_after set_job_manager job_manager].
    set (ag2 := if Qle_bool _ _ then _ else ag0).
    assert (Hm2 : job_manager ag2 = job_manager ag0).
    { unfold ag2. destruct (Qle_bool _ _); [|reflexivity].
      apply send_heartbeat_agent. }
    rewrite <- Hm2.
    eapply agent_side_only_trans;
      [apply request_jobs_side | apply process_job_results_side]. }
  destruct (is_registered ag) eqn:E; [apply Hreg; exact E|].
  unfold main_pass. rewrite E. unfold register_with_server.
  destruct (register_reply w) as [[|]|msg];
    try (cbn [negb agent_after]; apply agent_side_only_refl).
  specialize (Hreg (set_registered ag) eq_refl).
  unfold main_pass in Hreg. cbn [is_registered set_registered] in Hreg.
  exact Hreg.
Qed.

(** X17: what the agent's loop never does. Over any number of passes of
    the main loop, with any replies of the server, the loop by itself
    leaves the active set, the pool and [concurrent_jobs] as they were, adds
    nothing to the completed set, and only appends to the queue: it never
    starts or finishes a job, never drops or reorders a waiting assignment,
    and never invents a result. *)
Theorem main_loop_agent_side_only (ws : list world) (ag : agent) :
  let m := job_manager ag in
  let m' := job_manager (main_loop ws ag) in
  active_jobs m' = active_jobs m
  /\ executor m' = executor m
  /\ concurrent_jobs m' = concurrent_jobs m
  /\ completed_jobs m' ⊆ completed_jobs m
  /\ job_queue m `prefix_of` job_queue m'.
Proof.
  cbv zeta. change (agent_side_only (job_manager ag)
                                    (job_manager (main_loop ws ag))).
  revert ag. induction ws as [|w ws IH]; intros ag.
  - apply agent_side_only_refl.
  - unfold main_loop. simpl. fold (main_loop ws (agent_after (main_pass w ag))).
    eapply agent_side_only_trans; [apply main_pass_side | apply IH].
Qed.

End LoopLedger.

(** * Further properties of the job classes *)

Section FactoryRegistry.
Import Jobs Factory.

Lemma supported_iff (job_classes : gmap string JobClass) (ty : string) :
  ty ∈ get_supported_job_types job_classes <-> is_Some (job_classes !! ty).
Proof. unfold get_supported_job_types. apply elem_of_dom. Qed.

(** X18: the registry of the factory and the constructors it runs. After
    [register_job_class(ty, cls)], [create_job] for [ty] calls the
    constructor of [cls], whatever was registered for [ty] before: it
    returns an instance of [cls] carrying the given id and data when the
    constructor returns and raises what the constructor raises otherwise;
    it behaves as before for every other type. A job comes back only for a
    type [get_supported_job_types] lists, and it is an instance of the
    class registered for that type; for a type not listed [create_job]
    raises "Unknown job type" naming the type. A listed type is no
    promise of a job: the OCR class of the default registry raises on
    preprocessing options that are a string. *)
Theorem register_then_create (makedirs : filesystem)
    (job_classes : gmap string JobClass)
    (ty ty' : string) (cls : JobClass) (jid : string) (jd : job_data) :
  (forall u, init_job cls makedirs jid jd = Returns u ->
     create_job makedirs (register_job_class ty cls job_classes) ty jid jd
     = Returns (new_job cls jid jd))
  /\ (forall msg, init_job cls makedirs jid jd = Raises msg ->
      create_job makedirs (register_job_class ty cls job_classes) ty jid jd
      = Raises msg)
  /\ (ty' <> ty ->
      create_job makedirs (register_job_class ty cls job_classes) ty' jid jd
      = create_job makedirs job_classes ty' jid jd)
  /\ (ty' ∈ get_supported_job_types (register_job_class ty cls job_classes) <->
      ty' = ty \/ ty' ∈ get_supported_job_types job_classes)
  /\ (forall job,
        create_job makedirs job_classes ty' jid jd = Returns job ->
        ty' ∈ get_supported_job_types job_classes
        /\ job_classes !! ty' = Some (job_class job)
        /\ init_job (job_class job) makedirs jid jd = Returns tt
        /\ job = new_job (job_class job) jid jd)
  /\ (ty' ∉ get_supported_job_types job_classes ->
      create_job makedirs job_classes ty' jid jd
      = Raises ("Unknown job type: " +:+ ty'))
  /\ (let defaults := default_job_classes (OCRJob Samples.quick_engine)
                                          (OCRJob Samples.slow_engine) in
      "ocr" ∈ get_supported_job_types defaults
      /\ create_job creatable defaults "ocr" "job-3"
                    (Samples.ocr_with_flat_options "job-3")
         = Raises "'str' object has no attribute 'get'").
Proof.
  unfold register_job_class, create_job.
  split; [intros u Hinit; rewrite lookup_insert_eq, Hinit; reflexivity|].
  split; [intros msg Hinit; rewrite lookup_insert_eq, Hinit; reflexivity|].
  split; [intros Hne; rewrite lookup_insert_ne by congruence; reflexivity|].
  rewrite !supported_iff, lookup_insert_is_Some.
  split; [|split; [|split]].
  - split.
    + intros [-> | [_ H]]; [left; reflexivity | right; exact H].
    + intros [-> | H]; [left; reflexivity|].
      destruct (decide (ty = ty')); [left; assumption | right; split; assumption].
  - intros job Hjob.
    destruct (job_classes !! ty') as [c|] eqn:Ec; [|discriminate].
    destruct (init_job c makedirs jid jd) as [[]|msg] eqn:Einit;
      [|discriminate].
    injection Hjob as <-. simpl. rewrite Einit.
    split; [apply supported_iff; rewrite Ec; eexists; reflexivity|].
    repeat split.
  - intros Hno. destruct (job_classes !! ty') as [c|] eqn:E; [|reflexivity].
    exfalso. apply Hno. exists c. reflexivity.
  - cbv zeta. split; [apply supported_iff; vm_compute; eexists; reflexivity|].
    vm_compute. reflexivity.
Qed.

Lemma register_then_create_witness :
  create_job creatable
             (register_job_class "ocr" (OCRJob Samples.quick_engine) ∅)
             "ocr" "job-1" (Samples.ocr_assignment "job-1")
  = Returns (new_job (OCRJob Samples.quick_engine) "job-1"
                     (Samples.ocr_assignment "job-1")).
Proof.
  destruct (register_then_create creatable ∅ "ocr" "ocr"
              (OCRJob Samples.quick_engine) "job-1"
              (Samples.ocr_assignment "job-1"))
    as (Hbuilt & _).
  apply (Hbuilt tt). vm_compute. reflexivity.
Defined.

End FactoryRegistry.

Section ResultShape.
Import Jobs Factory.

(** X19: [update_progress] clamps: the value stored is always between 0
    and 100, it is the value given whenever that lies between 0 and 100,
    and clamping twice is clamping once. *)
Theorem update_progress_clamps (progress : Q) :
  (0 <= update_progress progress)%Q
  /\ (update_progress progress <= 100)%Q
  /\ ((0 <= progress)%Q -> (progress <= 100)%Q ->
      (update_progress progress == progress)%Q)
  /\ ((progress < 0)%Q -> (update_progress progress == 0)%Q)
  /\ ((100 < progress)%Q -> (update_progress progress == 100)%Q)
  /\ (update_progress (update_progress progress) == update_progress progress)%Q.
Proof.
  unfold update_progress.
  assert (Hclamp : forall p : Q,
             (0 <= Qmax 0 (Qmin 100 p))%Q /\ (Qmax 0 (Qmin 100 p) <= 100)%Q).
  { intros p. split; [apply Q.le_max_l|].
    apply Q.max_lub; [discriminate | apply Q.le_min_l]. }
  assert (Hid : forall p : Q, (0 <= p)%Q -> (p <= 100)%Q ->
                              (Qmax 0 (Qmin 100 p) == p)%Q).
  { intros p H0 H100. rewrite (Q.min_r 100 p) by exact H100.
    apply Q.max_r. exact H0. }
  destruct (Hclamp progress) as [Hlo Hhi].
  split; [exact Hlo|]. split; [exact Hhi|]. split; [apply Hid|].
  split; [|split].
  - intros Hneg. rewrite (Q.min_r 100 progress) by lra.
    apply Q.max_l. lra.
  - intros Hbig. rewrite (Q.min_l 100 progress) by lra.
    apply Q.max_r. discriminate.
  - apply Hid; assumption.
Qed.

Lemma update_progress_clamps_witness :
  (update_progress 250 == 100)%Q.
Proof.
  destruct (update_progress_clamps 250) as (_ & _ & _ & _ & Hbig & _).
  apply Hbig. reflexivity.
Defined.

(** X20: every result [execute] returns is well formed. Its status is
    ["completed"] with a payload and no error, or ["failed"] with no
    payload and an error whose details name the job, its type and its
    parameters; its statistics start at the clock reading taken at the
    start and end [processing_time_seconds] later. *)
Theorem execute_result_well_formed (now : nat) (job : Job) (res : JobResult) :
  execute now job = Some res ->
  ((status res = "completed" /\ is_Some (result res) /\ error res = None)
   \/ (status res = "failed" /\ result res = None
       /\ exists e, error res = Some e
                    /\ details_job_id e = job_id job
                    /\ details_job_type e = job_type job
                    /\ details_parameters e = parameters job))
  /\ start_time (stats res) = now
  /\ end_time (stats res)
     = (start_time (stats res) + processing_time_seconds (stats res))%nat.
Proof.
  unfold execute. intros Hex.
  destruct (validate_parameters (job_class job) (job_data_of job)) as [u|msg].
  - destruct (process_job (job_class job) (job_data_of job))
      as [elapsed payload | elapsed msg |]; [| |discriminate];
      injection Hex as <-; simpl.
    + split; [left; repeat split; eexists; reflexivity | split; reflexivity].
    + split; [|split; reflexivity].
      right. split; [reflexivity|]. split; [reflexivity|].
      eexists. repeat split.
  - injection Hex as <-. simpl. split; [|split; reflexivity].
    right. split; [reflexivity|]. split; [reflexivity|].
    eexists. repeat split.
Qed.

Lemma execute_result_well_formed_witness :
  let job := new_job (OCRJob Samples.slow_engine) "job-1"
                     (Samples.ocr_assignment "job-1") in
  start_time (stats (completed_result 7 5 {[ "text" := "ok" ]})) = 7%nat.
Proof.
  intros job.
  apply (execute_result_well_formed 7 job). vm_compute. reflexivity.
Defined.

End ResultShape.

Section OcrValidation.
Import Jobs Factory.

Lemma format_listed (fmt : string) :
  existsb (String.eqb fmt) ocr_valid_formats = true <-> In fmt ocr_valid_formats.
Proof.
  rewrite existsb_exists. split.
  - intros (x & Hin & Heq). apply String.eqb_eq in Heq. subst x. exact Hin.
  - intros Hin. exists fmt. split; [exact Hin | apply String.eqb_refl].
Qed.

(** X21: what [OCRJob._validate_parameters] accepts. The parameters pass
    exactly when ["input_file"] is present and not empty and
    ["output_format"], if given, is one of txt, json, docx, pdf and csv; a
    missing input file is reported first, whatever the output format; and
    no other parameter, the language included, has any influence on the
    outcome. *)
Theorem ocr_validation_accepts (jd : job_data) :
  ((exists u, ocr_validate_parameters jd = Returns u) <->
     (exists f, jd_parameters jd !! "input_file" = Some f /\ f <> "")
     /\ (forall fmt, jd_parameters jd !! "output_format" = Some fmt ->
                     In fmt ocr_valid_formats))
  /\ (truthy (jd_parameters jd !! "input_file") = None ->
      ocr_validate_parameters jd = Raises "Input file is required for OCR job")
  /\ (forall k v, k <> "input_file" -> k <> "output_format" ->
        ocr_validate_parameters (set_parameters (<[k := v]> (jd_parameters jd)) jd)
        = ocr_validate_parameters jd).
Proof.
  split; [|split].
  - unfold ocr_validate_parameters.
    destruct (truthy (jd_parameters jd !! "input_file")) as [f|] eqn:Ein.
    + apply truthy_Some in Ein. destruct Ein as [Ein Hne].
      destruct (jd_parameters jd !! "output_format") as [fmt|] eqn:Efmt;
        unfold from_option, id.
      * destruct (existsb (String.eqb fmt) ocr_valid_formats) eqn:Ok.
        -- split; [|intros _; eexists; reflexivity].
           intros _. split; [exists f; split; assumption|].
           intros fmt' [= <-]. apply format_listed. exact Ok.
        -- split; [intros [u Hu]; discriminate|].
           intros [_ Hfmt]. specialize (Hfmt fmt eq_refl).
           apply format_listed in Hfmt. congruence.
      * split; [|intros _; eexists; reflexivity].
        intros _. split; [exists f; split; assumption | intros fmt'; discriminate].
    + split; [intros [u Hu]; discriminate|].
      intros [(f & Hf & Hne) _]. 
      assert (Ht : truthy (jd_parameters jd !! "input_file") = Some f)
        by (apply truthy_Some; split; assumption).
      congruence.
  - intros Hmissing. unfold ocr_validate_parameters. rewrite Hmissing.
    reflexivity.
  - intros k v Hk1 Hk2. unfold ocr_validate_parameters, set_parameters.
    cbn [jd_parameters]. rewrite !lookup_insert_ne by assumption.
    reflexivity.
Qed.

Lemma ocr_validation_accepts_witness :
  exists u, ocr_validate_parameters (Samples.ocr_assignment "job-1") = Returns u.
Proof.
  apply (ocr_validation_accepts (Samples.ocr_assignment "job-1")).
  split.
  - exists "x.png". split; [vm_compute; reflexivity | discriminate].
  - intros fmt Hfmt. vm_compute in Hfmt. discriminate.
Defined.

End OcrValidation.

(** * Properties of the configuration merge *)

Section ConfigMerge.
Import Config.
Context {V : Type}.

Lemma dict_get_set_eq (k : string) (v : cfg V) (d : list (string * cfg V)) :
  dict_get k (dict_set k v d) = Some v.
Proof.
  induction d as [|[k' v'] d IH]; simpl.
  - rewrite String.eqb_refl. reflexivity.
  - destruct (String.eqb k' k) eqn:E; simpl.
    + rewrite String.eqb_refl. reflexivity.
    + rewrite E. exact IH.
Qed.

Lemma dict_get_set_ne (k k0 : string) (v : cfg V) (d : list (string * cfg V)) :
  k0 <> k -> dict_get k (dict_set k0 v d) = dict_get k d.
Proof.
  intros Hne. induction d as [|[k' v'] d IH]; simpl.
  - apply String.eqb_neq in Hne. rewrite Hne. reflexivity.
  - destruct (String.eqb_spec k' k0) as [-> | Hk]; simpl.
    + apply String.eqb_neq in Hne. rewrite Hne. reflexivity.
    + rewrite IH. reflexivity.
Qed.

Lemma dict_get_absent (k : string) (d : list (string * cfg V)) :
  ~ In k (map fst d) -> dict_get k d = None.
Proof.
  induction d as [|[k' v'] d IH]; simpl; [reflexivity|].
  intros Hn. destruct (String.eqb_spec k' k) as [-> | Hk].
  - exfalso. apply Hn. left. reflexivity.
  - apply IH. intros Hin. apply Hn. right. exact Hin.
Qed.

(** The loop inside [merge_value] is [merge_configs]. *)
Lemma merge_value_dicts (base override : list (string * cfg V)) :
  merge_value (Dict base) (Dict override) = Dict (merge_configs base override).
Proof.
  simpl. f_equal. revert base.
  induction override as [|[k v] rest IH]; intros base; [reflexivity|].
  simpl. apply IH.
Qed.

Lemma merge_value_leaf (b : cfg V) (x : V) : merge_value b (Leaf x) = Leaf x.
Proof. destruct b; reflexivity. Qed.

Lemma merge_value_onto_leaf (x : V) (o : cfg V) : merge_value (Leaf x) o = o.
Proof. destruct o; reflexivity. Qed.

Lemma merge_configs_get (k : string) (base override : list (string * cfg V)) :
  NoDup (map fst override) ->
  dict_get k (merge_configs base override)
  = match dict_get k override with
    | None => dict_get k base
    | Some v => Some (match dict_get k base with
                      | Some b => merge_value b v
                      | None => v
                      end)
    end.
Proof.
  revert base. induction override as [|[k0 v0] rest IH]; intros base Hnd;
    [reflexivity|].
  simpl in Hnd. apply NoDup_cons in Hnd. destruct Hnd as [Hfresh Hnd].
  cbn [merge_configs dict_get]. rewrite (IH _ Hnd).
  destruct (String.eqb_spec k0 k) as [-> | Hne].
  - rewrite (dict_get_absent k rest)
      by (intros Hin; apply Hfresh, list_elem_of_In; exact Hin).
    apply dict_get_set_eq.
  - rewrite (dict_get_set_ne k k0) by exact Hne. reflexivity.
Qed.

(** X22: one level of [_merge_configs]. After the call the base holds,
    under a key the override does not have, what it held before; under a
    key the override has, the override's value, unless both values are
    dictionaries, which are then merged in the same way; so no key of the
    base is lost and a value that is not a dictionary on either side is
    replaced whole. *)
Theorem merge_configs_key_by_key (k : string)
    (base override : list (string * cfg V)) :
  NoDup (map fst override) ->
  (dict_get k override = None ->
   dict_get k (merge_configs base override) = dict_get k base)
  /\ (forall o, dict_get k override = Some o -> dict_get k base = None ->
        dict_get k (merge_configs base override) = Some o)
  /\ (forall b o, dict_get k override = Some (Dict o) ->
        dict_get k base = Some (Dict b) ->
        dict_get k (merge_configs base override)
        = Some (Dict (merge_configs b o)))
  /\ (forall b x, dict_get k override = Some (Leaf x) ->
        dict_get k base = Some b ->
        dict_get k (merge_configs base override) = Some (Leaf x))
  /\ (forall x o, dict_get k override = Some o ->
        dict_get k base = Some (Leaf x) ->
        dict_get k (merge_configs base override) = Some o)
  /\ (is_Some (dict_get k base) ->
      is_Some (dict_get k (merge_configs base override))).
Proof.
  intros Hnd. pose proof (merge_configs_get k base override Hnd) as Hget.
  split; [intros Ho; rewrite Hget, Ho; reflexivity|].
  split; [intros o Ho Hb; rewrite Hget, Ho, Hb; reflexivity|].
  split; [intros b o Ho Hb; rewrite Hget, Ho, Hb, merge_value_dicts; reflexivity|].
  split; [intros b x Ho Hb; rewrite Hget, Ho, Hb, merge_value_leaf; reflexivity|].
  split; [intros x o Ho Hb;
          rewrite Hget, Ho, Hb, merge_value_onto_leaf; reflexivity|].
  intros [b Hb]. rewrite Hget, Hb.
  destruct (dict_get k override); eexists; reflexivity.
Qed.

Lemma well_formed_child (k : string) (items : list (string * cfg V)) (v : cfg V) :
  well_formed (Dict items) -> dict_get k items = Some v -> well_formed v.
Proof.
  intros [_ Hall]. induction items as [|[k' v'] rest IH]; [discriminate|].
  simpl. destruct Hall as [Hv Hrest].
  destruct (String.eqb k' k); [intros [= <-]; exact Hv | apply IH; exact Hrest].
Qed.

Lemma well_formed_keys (items : list (string * cfg V)) :
  well_formed (Dict items) -> NoDup (map fst items).
Proof. intros [Hnd _]. exact Hnd. Qed.

(** X23: the user's values win at every depth. If following a path of keys
    in the override ends at a value that is not a dictionary, the merged
    configuration holds that value at the same path, whatever the base
    holds there. *)
Theorem override_wins (path : list string) (x : V)
    (base override : list (string * cfg V)) :
  well_formed (Dict override) ->
  get_path path (Dict override) = Some (Leaf x) ->
  get_path path (Dict (merge_configs base override)) = Some (Leaf x).
Proof.
  revert base override. induction path as [|k rest IH]; intros base override Hwf;
    [discriminate|].
  cbn [get_path]. rewrite (merge_configs_get k base override (well_formed_keys _ Hwf)).
  destruct (dict_get k override) as [v|] eqn:Ho; [|discriminate].
  pose proof (well_formed_child k override v Hwf Ho) as Hwfv.
  intros Hrest. destruct rest as [|k' rest'].
  - injection Hrest as ->.
    destruct (dict_get k base); [rewrite merge_value_leaf|]; reflexivity.
  - destruct v as [y | inner]; [discriminate|].
    destruct (dict_get k base) as [[y | b]|]; try exact Hrest.
    rewrite merge_value_dicts. apply IH; assumption.
Qed.

Lemma untouched_absent (path : list string) (override : list (string * cfg V)) :
  untouched path override -> get_path path (Dict override) = None.
Proof.
  revert override. induction path as [|k rest IH]; intros override;
    [contradiction|].
  cbn [untouched get_path].
  destruct (dict_get k override) as [[y | inner]|]; [contradiction | | reflexivity].
  apply IH.
Qed.

(** X24: the defaults survive where the user says nothing. At a path the
    override leaves alone (it has sections along the path up to a key it
    does not define), the merged configuration holds exactly what the base
    held. *)
Theorem defaults_survive (path : list string)
    (base override : list (string * cfg V)) :
  well_formed (Dict override) ->
  untouched path override ->
  get_path path (Dict (merge_configs base override))
  = get_path path (Dict base).
Proof.
  revert base override. induction path as [|k rest IH]; intros base override Hwf;
    [contradiction|].
  cbn [untouched get_path].
  rewrite (merge_configs_get k base override (well_formed_keys _ Hwf)).
  destruct (dict_get k override) as [[y | inner]|] eqn:Ho;
    [contradiction | | reflexivity].
  pose proof (well_formed_child k override _ Hwf Ho) as Hwfv.
  intros Hun.
  destruct (dict_get k base) as [[y | b]|].
  - rewrite merge_value_onto_leaf, (untouched_absent rest inner Hun).
    destruct rest; [contradiction | reflexivity].
  - rewrite merge_value_dicts. apply IH; assumption.
  - apply untouched_absent. exact Hun.
Qed.

End ConfigMerge.

Section ConfigMergeWitness.
Import Config.

Lemma merge_configs_key_by_key_witness :
  dict_get "resources" (merge_configs default_resources user_resources)
  = Some (Dict (merge_configs
                  [("max_cpu_percent", Leaf 80); ("max_memory_percent", Leaf 70);
                   ("min_free_disk_space_mb", Leaf 1000);
                   ("concurrent_jobs", Leaf 2)]
                  [("max_cpu_percent", Leaf 50)])).
Proof.
  destruct (merge_configs_key_by_key "resources" default_resources user_resources)
    as (_ & _ & Hboth & _).
  - repeat constructor. intros Hin. inversion Hin.
  - apply Hboth; reflexivity.
Defined.

Lemma user_resources_well_formed : well_formed (Dict user_resources).
Proof.
  simpl. repeat split; repeat constructor; intros Hin; inversion Hin.
Defined.

Lemma override_wins_witness :
  get_path ["resources"; "max_cpu_percent"]
           (Dict (merge_configs default_resources user_resources))
  = Some (Leaf 50).
Proof.
  apply override_wins; [exact user_resources_well_formed | reflexivity].
Defined.

Lemma defaults_survive_witness :
  get_path ["resources"; "concurrent_jobs"]
           (Dict (merge_configs default_resources user_resources))
  = get_path ["resources"; "concurrent_jobs"] (Dict default_resources).
Proof.
  apply defaults_survive; [exact user_resources_well_formed | exact I].
Defined.

End ConfigMergeWitness.

(** * Properties of the shortening of recognised text *)

Section Truncation.
Import Jobs TextContent.

Lemma append_cons (c : ascii) (a b : string) :
  String c a +:+ b = String c (a +:+ b).
Proof. reflexivity. Qed.

Lemma length_app_string (a b : string) :
  String.length (a +:+ b) = (String.length a + String.length b)%nat.
Proof.
  induction a as [|c a IH]; [reflexivity|].
  rewrite append_cons. simpl. rewrite IH. reflexivity.
Qed.

Lemma take_chars_length (n : nat) (s : string) :
  String.length (take_chars n s) = Nat.min n (String.length s).
Proof.
  unfold take_chars. revert s. induction n as [|n IH]; intros [|c s]; simpl;
    try reflexivity.
  rewrite IH. reflexivity.
Qed.

Lemma take_chars_all (n : nat) (s : string) :
  (String.length s <= n)%nat -> take_chars n s = s.
Proof.
  unfold take_chars. revert s. induction n as [|n IH]; intros [|c s] Hlen;
    simpl in *; try reflexivity; try lia.
  rewrite IH by lia. reflexivity.
Qed.


Lemma marker_length : String.length truncation_marker = 15%nat.
Proof. reflexivity. Qed.


(** X25: the text an OCR result carries. ["text_content"] never holds more
    than 10000 characters of recognised text plus the fifteen characters of
    the marker; a text of at most 10000 characters is carried whole and
    unmarked, a longer one is cut to its first 10000 characters and
    marked. *)
Theorem ocr_text_content_bounded (all_text : string) :
  (String.length (ocr_text_content all_text) <= text_limit + 15)%nat
  /\ ((String.length all_text <= text_limit)%nat ->
      ocr_text_content all_text = all_text)
  /\ ((text_limit < String.length all_text)%nat ->
      ocr_text_content all_text
      = take_chars text_limit all_text +:+ truncation_marker
      /\ String.length (ocr_text_content all_text) = (text_limit + 15)%nat).
Proof.
  unfold ocr_text_content.
  destruct (Nat.leb_spec (String.length all_text) text_limit) as [Hshort | Hlong].
  - split; [rewrite take_chars_length; lia|].
    split; [intros _; apply take_chars_all; exact Hshort | lia].
  - rewrite length_app_string, take_chars_length, marker_length.
    split; [lia|]. split; [lia|]. intros _. split; [reflexivity | lia].
Qed.


End Truncation.

(** * Where the jobs in the system come from *)

Section Provenance.
Import Jobs JobManager Dispatch.

Lemma prepare_ready_id (makedirs : filesystem)
    (classes : gmap string JobClass) (jd : job_data) (job : Job) :
  prepare_with makedirs classes jd = Ready job ->
  jd_job_id jd = Some (job_id job).
Proof.
  unfold prepare_with, create_job.
  destruct (truthy (jd_job_id jd)) as [jid|] eqn:Et; [|discriminate].
  apply truthy_Some in Et. destruct Et as [Hid _].
  destruct (makedirs [jid]); [|discriminate].
  destruct (truthy (jd_job_type jd)) as [ty|]; [|discriminate].
  destruct (classes !! ty) as [cls|]; [|discriminate].
  destruct (init_job cls makedirs jid jd); [|discriminate].
  intros [= <-]. exact Hid.
Qed.

Lemma in_system_fields (s s' : system) (jid : string) :
  job_queue (mgr s') ⊆ job_queue (mgr s) ->
  (forall job, pc s' = Holding job -> pc s = Holding job) ->
  active_jobs (mgr s') ⊆ active_jobs (mgr s) ->
  executor (mgr s') ⊆ executor (mgr s) ->
  completed_jobs (mgr s') ⊆ completed_jobs (mgr s) ->
  in_system s' jid -> in_system s jid.
Proof.
  intros Hq Hpc Ha He Hc [(jd & Hin & Hid) | [(job & Hh & Hid) | [Hact |
    [(job & Hin & Hid) | Hdone]]]].
  - left. exists jd. split; [apply Hq; exact Hin | exact Hid].
  - right. left. exists job. split; [apply Hpc; exact Hh | exact Hid].
  - right. right. left. destruct Hact as [v Hv]. exists v.
    exact (lookup_weaken _ _ _ _ Hv Ha).
  - right. right. right. left. exists job. split; [apply He; exact Hin | exact Hid].
  - right. right. right. right. destruct Hdone as [v Hv]. exists v.
    exact (lookup_weaken _ _ _ _ Hv Hc).
Qed.

Lemma step_in_system (s : system) (e : event) (jid : string) :
  in_system (step s e) jid ->
  in_system s jid \/ exists jd, e = EvAddJob jd /\ jd_job_id jd = Some jid.
Proof.
  destruct e as [jd | | makedirs | | i now | k]; simpl.
  - (* add_job *)
    destruct (add_job_ledger jd (mgr s)) as (Ha & Hc & _ & He & _).
    intros [(jd' & Hin & Hid) | [Hh | [Hact | [Hex | Hdone]]]].
    + simpl in Hin. rewrite add_job_queue in Hin.
      destruct (accepted_by (mgr s) jd).
      * apply elem_of_app in Hin. destruct Hin as [Hin | Hin].
        -- left. left. exists jd'. split; assumption.
        -- apply list_elem_of_singleton in Hin. subst jd'.
           right. exists jd. split; [reflexivity | exact Hid].
      * left. left. exists jd'. split; assumption.
    + left. right. left. exact Hh.
    + left. right. right. left. simpl in Hact. rewrite Ha in Hact. exact Hact.
    + left. right. right. right. left. simpl in Hex. rewrite He in Hex. exact Hex.
    + left. right. right. right. right. simpl in Hdone. rewrite Hc in Hdone.
      exact Hdone.
  - (* capacity check *)
    destruct (pc s) eqn:Epc; try (intros H; left; exact H).
    destruct (has_capacity (mgr s)); [|intros H; left; exact H].
    intros H. left. revert H. apply in_system_fields; simpl; try reflexivity.
    discriminate.
  - (* dequeue *)
    destruct (pc s) eqn:Epc; try (intros H; left; exact H).
    destruct (job_queue (mgr s)) as [|jd q] eqn:Eq.
    + intros H. left. revert H. apply in_system_fields; simpl; try reflexivity.
      discriminate.
    + destruct (prepare_with makedirs (job_classes (mgr s)) jd)
        as [| | |job] eqn:Eprep.
      * intros H. left. revert H. apply in_system_fields; simpl;
          try reflexivity; try discriminate.
        rewrite Eq. intros x Hx. right. exact Hx.
      * intros H. left. revert H. apply in_system_fields; simpl;
          try reflexivity; try discriminate.
        rewrite Eq. intros x Hx. right. exact Hx.
      * intros H. left. revert H. apply in_system_fields; simpl;
          try reflexivity; try discriminate.
        rewrite Eq. intros x Hx. right. exact Hx.
      * intros [(jd' & Hin & Hid) | [(job' & Hh & Hid) | [Hact | [Hex | Hdone]]]].
        -- left. left. exists jd'. split; [|exact Hid].
           rewrite Eq. right. exact Hin.
        -- simpl in Hh. injection Hh as <-. left. left. exists jd.
           split; [rewrite Eq; left|].
           rewrite (prepare_ready_id _ _ _ _ Eprep), Hid. reflexivity.
        -- left. right. right. left. exact Hact.
        -- left. right. right. right. left. exact Hex.
        -- left. right. right. right. right. exact Hdone.
  - (* insertion into the active set *)
    destruct (pc s) eqn:Epc; try (intros H; left; exact H).
    intros [(jd' & Hin & Hid) | [(job' & Hh & Hid) | [Hact | [Hex | Hdone]]]].
    + left. left. exists jd'. split; assumption.
    + discriminate Hh.
    + simpl in Hact. apply lookup_insert_is_Some in Hact.
      destruct Hact as [Heq | [_ Hact]].
      * left. right. left. exists job. split; [exact Epc | exact Heq].
      * left. right. right. left. exact Hact.
    + destruct Hex as (job' & Hin & Hid). simpl in Hin.
      apply elem_of_app in Hin. destruct Hin as [Hin | Hin].
      * left. right. right. right. left. exists job'. split; assumption.
      * apply list_elem_of_singleton in Hin. subst job'.
        left. right. left. exists job. split; [exact Epc | exact Hid].
    + left. right. right. right. right. exact Hdone.
  - (* completion *)
    destruct (execute_job i now (mgr s)) as [m'|] eqn:Ex;
      [|intros H; left; exact H].
    unfold execute_job in Ex.
    destruct (executor (mgr s) !! i) as [job|] eqn:Ei; [|discriminate].
    destruct (execute now job) as [res|]; [|discriminate].
    injection Ex as <-.
    intros [(jd' & Hin & Hid) | [(job' & Hh & Hid) | [Hact | [Hex | Hdone]]]].
    + left. left. exists jd'. split; assumption.
    + left. right. left. exists job'. split; assumption.
    + simpl in Hact. destruct Hact as [v Hv].
      apply lookup_delete_Some in Hv. destruct Hv as [_ Hv].
      left. right. right. left. exists v. exact Hv.
    + destruct Hex as (job' & Hin & Hid). simpl in Hin.
      left. right. right. right. left. exists job'. split; [|exact Hid].
      exact (list_elem_of_delete_inv _ _ _ Hin).
    + simpl in Hdone. apply lookup_insert_is_Some in Hdone.
      destruct Hdone as [Heq | [_ Hdone]].
      * left. right. right. right. left. exists job.
        split; [exact (list_elem_of_lookup_2 _ _ _ Ei) | exact Heq].
      * left. right. right. right. right. exact Hdone.
  - (* acknowledgement *)
    intros H. left. revert H.
    destruct (remove_completed_job_ledger k (mgr s)) as (Ha & _ & Hq & Hc).
    assert (He : executor (remove_completed_job k (mgr s)) = executor (mgr s)).
    { unfold remove_completed_job.
      destruct (contains (completed_jobs (mgr s)) k); reflexivity. }
    apply in_system_fields; simpl; rewrite ?Ha, ?Hq, ?He, ?Hc;
      try reflexivity; try tauto.
    apply delete_subseteq.
Qed.

(** X27: nothing in the system that the server did not assign. In every
    state reached from a freshly built manager, an id that is waiting in
    the queue, in the worker's hands, in the active set, in the pool or in
    the completed set is the id of an assignment handed to [add_job]
    earlier. *)
Theorem jobs_come_from_assignments (classes : gmap string JobClass) (n : Z)
    (m0 : JobManager.t) (es : list event) (jid : string) :
  init classes n = Returns m0 ->
  in_system (run (System m0 AtLoopHead) es) jid ->
  assigned es jid.
Proof.
  intros Hinit. induction es as [|e es IH] using rev_ind.
  - unfold init in Hinit. destruct (n <=? 0); [discriminate|].
    injection Hinit as <-. simpl.
    intros [(jd & Hin & _) | [(job & Hh & _) | [Hact | [(job & Hin & _) | Hdone]]]].
    + inversion Hin.
    + discriminate Hh.
    + destruct Hact as [v Hv]. simpl in Hv. rewrite lookup_empty in Hv.
      discriminate.
    + inversion Hin.
    + destruct Hdone as [v Hv]. simpl in Hv. rewrite lookup_empty in Hv.
      discriminate.
  - unfold run. rewrite fold_left_app. simpl.
    fold (run (System m0 AtLoopHead) es).
    intros Hin. apply step_in_system in Hin.
    destruct Hin as [Hold | (jd & -> & Hid)].
    + destruct (IH Hold) as (jd & Hev & Hid). exists jd.
      split; [apply elem_of_app; left; exact Hev | exact Hid].
    + exists jd. split; [|exact Hid].
      apply elem_of_app. right. apply list_elem_of_singleton. reflexivity.
Qed.

Lemma jobs_come_from_assignments_witness :
  assigned [EvAddJob (Samples.ocr_assignment "job-1"); EvCheck; EvGet;
            EvTrack; EvFinish 0 7] "job-1".
Proof.
  apply (jobs_come_from_assignments (Samples.registry Samples.quick_engine) 2
           (Samples.fresh Samples.quick_engine)); [reflexivity|].
  right. right. right. right. apply contains_true. vm_compute. reflexivity.
Defined.

End Provenance.

(** * Properties of the page ranges *)

Section PageRanges.
Import PageRange.
Variable int_of : string -> option Z.

Lemma contains_char_app (c : ascii) (a b : string) :
  contains_char c (a +:+ b) = contains_char c a || contains_char c b.
Proof.
  induction a as [|x a IH]; [reflexivity|].
  change (String x a +:+ b) with (String x (a +:+ b)). simpl.
  rewrite IH, orb_assoc. reflexivity.
Qed.

Lemma contains_char_sep (c : ascii) (a b : string) :
  contains_char c (a +:+ String c b) = true.
Proof.
  rewrite contains_char_app. simpl. rewrite Ascii.eqb_refl.
  apply orb_true_r.
Qed.


Lemma split_on_first (c : ascii) (a b : string) :
  contains_char c a = false ->
  split_on c (a +:+ String c b) = a :: split_on c b.
Proof.
  induction a as [|x a IH]; intros H.
  - change (EmptyString +:+ String c b) with (String c b). simpl.
    rewrite Ascii.eqb_refl. reflexivity.
  - simpl in H. apply orb_false_iff in H. destruct H as [Hx Ha].
    change (String x a +:+ String c b) with (String x (a +:+ String c b)).
    simpl. rewrite Hx, (IH Ha). reflexivity.
Qed.

Lemma not_all_with (c : ascii) (s : string) :
  contains_char c s = true -> contains_char c "all" = false ->
  String.eqb s "all" = false.
Proof.
  intros Hs Hall. apply String.eqb_neq. intros ->. congruence.
Qed.




(** X29: a list of parts is read from left to right. For a first part
    without a comma, the pages of [part + "," + rest] are the valid pages
    of the part followed by the valid pages of the rest, in the order
    written and with repetitions kept; and if the part or anything in the
    rest cannot be read the whole call raises. *)
Theorem page_list_left_to_right (part rest : string) (total_pages : Z) :
  contains_char "," part = false ->
  parse_page_range int_of (part +:+ String "," rest) total_pages
  = match parse_part int_of part,
          parse_parts int_of (split_on "," rest) with
    | Some first, Some more =>
        Some (List.filter (in_range total_pages) first
              ++ List.filter (in_range total_pages) more)
    | _, _ => None
    end.
Proof.
  intros Hpart. unfold parse_page_range.
  rewrite (not_all_with "," _ (contains_char_sep "," part rest) eq_refl).
  rewrite (split_on_first "," part rest Hpart). cbn [parse_parts].
  destruct (parse_part int_of part) as [first|]; [|reflexivity].
  destruct (parse_parts int_of (split_on "," rest)) as [more|]; [|reflexivity].
  rewrite List.filter_app. reflexivity.
Qed.


End PageRanges.

Section PageRangeWitness.
Import PageRange.


Lemma page_list_left_to_right_witness :
  parse_page_range plain_int "1-3,7,12" 10 = Some [0; 1; 2; 6].
Proof.
  change (parse_page_range plain_int ("1-3" +:+ String "," "7,12") 10
          = Some [0; 1; 2; 6]).
  rewrite (page_list_left_to_right plain_int "1-3" "7,12" 10);
    [vm_compute; reflexivity | reflexivity].
Defined.


End PageRangeWitness.
